(** * cloudTings: the treat store and its two backends

    A shallow embedding of the persistence layer of the treat shelf:
    the [Treat] record and the [TreatDatabase] interface (treats.go), the
    in-memory backend [memoryDB] and the Cloud Firestore adapter
    [firestoreDB].

    Modelling choices, all taken from the Go sources:
    - a [*Treat] is a possibly-nil address into a heap of records; the
      in-memory store keeps the addresses it is handed, so a record stays
      shared between the store and its caller;
    - [db.treats] is a Go map that [Close] sets to nil: reading a nil map
      finds nothing, assigning into it panics;
    - [db.nextID] is an int64, incremented with wrap-around;
    - a method returns its values together with an optional error, or
      panics; the mutex only serialises the methods and is not modelled:
      every method is one atomic step on the state. *)

From Stdlib Require Import ZArith String Ascii Decimal DecimalString DecimalZ.
From Stdlib Require Import OrderedTypeEx.
From stdpp Require Import gmap strings list list_numbers sorting.

Local Open Scope string_scope.
Local Open Scope Z_scope.

(** ** strconv and the Go string order *)

Module Strconv.

(** [strconv.FormatInt(n, 10)]: the decimal digits of [n], with a leading
    minus sign when [n] is negative. *)
Definition FormatInt (n : Z) : string := NilEmpty.string_of_int (Z.to_int n).

(** The integer a decimal id denotes (0 for text that is not a number). *)
Definition id_value (s : string) : Z :=
  match NilEmpty.int_of_string s with
  | Some d => Z.of_int d
  | None => 0
  end.

(** The int64 an integer result wraps to (two's complement). *)
Definition wrap64 (z : Z) : Z := (z + 2 ^ 63) mod 2 ^ 64 - 2 ^ 63.

Definition max_int64 : Z := 2 ^ 63 - 1.
Definition min_int64 : Z := - 2 ^ 63.

End Strconv.
Export Strconv.

(** ** treats.go: the record *)

Record Treat : Type := mkTreat {
  ID : string;
  Title : string;
  Author : string;
  PublishedDate : string;
  ImageURL : string;
  Description : string
}.

(** [&Treat{}]: every field is the empty string. *)
Definition zeroTreat : Treat := mkTreat "" "" "" "" "" "".

#[global] Instance Treat_inhabited : Inhabited Treat := populate zeroTreat.

(** The assignment [t.ID = id]. *)
Definition set_ID (id : string) (t : Treat) : Treat :=
  mkTreat id (Title t) (Author t) (PublishedDate t) (ImageURL t) (Description t).

(** ** Errors

    The sources build their errors with [errors.New] and [fmt.Errorf]; an
    error is kept as the call that made it. *)

Inductive error : Type :=
| errors_New (text : string)
| Errorf_q (format : string) (id : string)      (* fmt.Errorf(format, id), verb %q *)
| Errorf_v (format : string) (cause : error).   (* fmt.Errorf(format, err), verb %v *)

(** The error kinds of the specification (section 7). *)
Inductive kind : Type := InvalidArgument | NotFound | ConnectionError | BackendError.

#[global] Instance kind_eq_dec : EqDecision kind.
Proof. solve_decision. Defined.

(** Which kind each error message of the two backends stands for. *)
Definition kind_of (e : error) : option kind :=
  match e with
  | errors_New text =>
      if bool_decide (text ∈
           [ "memorydb: treat with unassigned ID passed into DeleteTreat";
             "memorydb: treat with unassigned ID passed into UpdateTreat" ])
      then Some InvalidArgument else None
  | Errorf_q format _ =>
      if bool_decide (format ∈
           [ "memorydb: treat not found with ID %q";
             "memorydb: could not delete treat with ID %q, does not exist" ])
      then Some NotFound else None
  | Errorf_v format _ =>
      if bool_decide (format = "firestoredb: could not connect: %v")
      then Some ConnectionError
      else if bool_decide (format ∈
           [ "firestoredb: Get: %v"; "Create: %v"; "firestore: Delete: %v";
             "firestsore: Set: %v"; "firestoredb: could not list books: %v" ])
      then Some BackendError else None
  end.

(** ** Pointers, heap, results *)

(** The address of a heap-allocated [Treat]. *)
Definition loc : Type := positive.

(** A [*Treat]: [None] is the nil pointer. *)
Definition ptr : Type := option loc.

(** Why a method did not return. *)
Inductive panic : Type :=
| NilDereference      (* invalid memory address or nil pointer dereference *)
| NilMapAssignment    (* assignment to entry in nil map *)
| Raised (err : error).   (* panic(err), as uuid.Must does *)

(** What a call does: it returns a value and an optional error (Go's
    [(v, err)]), or it panics. *)
Inductive outcome (A : Type) : Type :=
| Return (v : A) (err : option error)
| Panics (p : panic).
Arguments Return {A} v err.
Arguments Panics {A} p.

Definition returned_error {A} (o : outcome A) : option error :=
  match o with
  | Return _ err => err
  | Panics _ => None
  end.

(** The program state a store method sees: the records on the heap (Go is
    memory safe: every address holds a record, the zero record until it is
    written) and the store itself. *)
Record memoryDB : Type := mkMemoryDB {
  nextID : Z;                            (* next ID to assign to a treat *)
  treats : option (gmap string loc)      (* maps from Treat ID to Treat; None is nil *)
}.

Record state : Type := mkState {
  heap : gmap loc Treat;
  db : memoryDB
}.

(** [m[id]] with the comma-ok form, on a map that may be nil. *)
Definition index (m : option (gmap string loc)) (id : string) : option loc :=
  m ≫= (λ m', m' !! id).

(** ** What the Go runtime and the sort package provide

    [ListTreats] ranges over a map, whose iteration order Go leaves
    unspecified (it changes from one loop to the next: [seed] stands for
    the runtime's choice), and calls [sort.Slice], which is not stable.
    Both are taken by their contract. *)

(** The requirement of package sort on [less]: a transitive ordering, and
    if [less x y] and [less y z] are both false then so is [less x z]. *)
Record StrictWeakOrder {A : Type} (less : A → A → bool) : Prop := {
  swo_irrefl : ∀ x, less x x = false;
  swo_trans : ∀ x y z, less x y = true → less y z = true → less x z = true;
  swo_incomp : ∀ x y z, less x y = false → less y z = false → less x z = false
}.

Class GoRuntime : Type := {
  map_range : N → gmap string loc → list (string * loc);
  map_range_perm : ∀ seed m, map_range seed m ≡ₚ map_to_list m;
  sort_Slice : (loc → loc → bool) → list loc → list loc;
  sort_Slice_perm : ∀ less l, sort_Slice less l ≡ₚ l;
  sort_Slice_sorted : ∀ less l,
    StrictWeakOrder less →
    StronglySorted (λ x y, less y x = false) (sort_Slice less l)
}.

(** ** The in-memory backend *)

Module MemoryDB.

Definition newMemoryDB : memoryDB :=
  {| treats := Some ∅; nextID := 1 |}.

(** A fresh store next to the records [h] its caller has allocated. *)
Definition fresh (h : gmap loc Treat) : state :=
  {| heap := h; db := newMemoryDB |}.

(** Close closes the database. *)
Definition Close (s : state) : outcome unit * state :=
  (Return () None,
   {| heap := heap s; db := {| nextID := nextID (db s); treats := None |} |}).

(** GetTreat retrieves a treat by its ID. *)
Definition GetTreat (id : string) (s : state) : outcome ptr * state :=
  match index (treats (db s)) id with
  | None => (Return None (Some (Errorf_q "memorydb: treat not found with ID %q" id)), s)
  | Some treat => (Return (Some treat) None, s)
  end.

(** AddTreat saves a given treat, assigning it a new ID. *)
Definition AddTreat (t : ptr) (s : state) : outcome string * state :=
  match t with
  | None => (Panics NilDereference, s)
  | Some l =>
      let id := FormatInt (nextID (db s)) in
      let h := <[l := set_ID id (heap s !!! l)]> (heap s) in
      match treats (db s) with
      | None => (Panics NilMapAssignment, {| heap := h; db := db s |})
      | Some m =>
          (Return id None,
           {| heap := h;
              db := {| nextID := wrap64 (nextID (db s) + 1);
                       treats := Some (<[id := l]> m) |} |})
      end
  end.

(** DeleteTreat removes a given treat by its ID. *)
Definition DeleteTreat (id : string) (s : state) : outcome unit * state :=
  if decide (id = "") then
    (Return () (Some (errors_New
       "memorydb: treat with unassigned ID passed into DeleteTreat")), s)
  else
    match index (treats (db s)) id with
    | None =>
        (Return () (Some (Errorf_q
           "memorydb: could not delete treat with ID %q, does not exist" id)), s)
    | Some _ =>
        (Return () None,
         {| heap := heap s;
            db := {| nextID := nextID (db s);
                     treats := delete id <$> treats (db s) |} |})
    end.

(** UpdateTreat updates the entry for a given treat. *)
Definition UpdateTreat (t : ptr) (s : state) : outcome unit * state :=
  match t with
  | None => (Panics NilDereference, s)
  | Some l =>
      let id := ID (heap s !!! l) in
      if decide (id = "") then
        (Return () (Some (errors_New
           "memorydb: treat with unassigned ID passed into UpdateTreat")), s)
      else
        match treats (db s) with
        | None => (Panics NilMapAssignment, s)
        | Some m =>
            (Return () None,
             {| heap := heap s;
                db := {| nextID := nextID (db s);
                         treats := Some (<[id := l]> m) |} |})
        end
  end.

Section list.
Context `{!GoRuntime}.

(** The comparison [ListTreats] hands to [sort.Slice]:
    [treats[i].Title < treats[j].Title], Go's bytewise string order. *)
Definition title_less (h : gmap loc Treat) (a b : loc) : bool :=
  String.ltb (Title (h !!! a)) (Title (h !!! b)).

(** ListTreats returns a list of treats, ordered by title. *)
Definition ListTreats (seed : N) (s : state) : outcome (list loc) * state :=
  let ts :=
    match treats (db s) with
    | None => []
    | Some m => (map_range seed m).*2
    end in
  (Return (sort_Slice (title_less (heap s)) ts) None, s).

(** The records the store holds, one per key. *)
Definition stored_treats (s : state) : list loc :=
  match treats (db s) with
  | None => []
  | Some m => (map_to_list m).*2
  end.

(** The state with the same heap and counter and an empty, open map. *)
Definition emptied (s : state) : state :=
  {| heap := heap s; db := {| nextID := nextID (db s); treats := Some ∅ |} |}.

(** [a]'s title is at most [b]'s. *)
Definition title_le (h : gmap loc Treat) (a b : loc) : Prop :=
  String.leb (Title (h !!! a)) (Title (h !!! b)) = true.

(** *** Calls from outside

    The handlers use the store through [TreatDatabase]; a [call] is one
    method call with its arguments, [exec] runs it and [run] a sequence of
    them. A panic unwinds through the deferred [Unlock], so the store goes
    on from the state the panic left (net/http recovers a handler's
    panic). *)

Inductive call : Type :=
| CallClose
| CallGetTreat (id : string)
| CallAddTreat (t : ptr)
| CallDeleteTreat (id : string)
| CallUpdateTreat (t : ptr)
| CallListTreats (seed : N).

Inductive value : Type :=
| VNothing
| VTreat (t : ptr)
| VID (id : string)
| VTreats (ts : list loc).

Definition outcome_map {A B} (f : A → B) (o : outcome A) : outcome B :=
  match o with
  | Return v err => Return (f v) err
  | Panics p => Panics p
  end.

Definition exec (c : call) (s : state) : outcome value * state :=
  match c with
  | CallClose => prod_map (outcome_map (λ _, VNothing)) id (Close s)
  | CallGetTreat i => prod_map (outcome_map VTreat) id (GetTreat i s)
  | CallAddTreat t => prod_map (outcome_map VID) id (AddTreat t s)
  | CallDeleteTreat i => prod_map (outcome_map (λ _, VNothing)) id (DeleteTreat i s)
  | CallUpdateTreat t => prod_map (outcome_map (λ _, VNothing)) id (UpdateTreat t s)
  | CallListTreats seed => prod_map (outcome_map VTreats) id (ListTreats seed s)
  end.

Fixpoint run (cs : list call) (s : state) : list (outcome value) * state :=
  match cs with
  | [] => ([], s)
  | c :: cs' =>
      let (o, s') := exec c s in
      let (os, s'') := run cs' s' in
      (o :: os, s'')
  end.

(** The id a call handed out, if it is an AddTreat that returned. *)
Definition assigned (o : outcome value) : option string :=
  match o with
  | Return (VID i) None => Some i
  | _ => None
  end.

(** The ids the [AddTreat] calls of a run handed out, in call order. *)
Definition assigned_ids (os : list (outcome value)) : list string :=
  omap assigned os.

(** Decimal ids in ascending order of the numbers they denote. *)
Definition id_lt (a b : string) : Prop := id_value a < id_value b.

(** *** The map is keyed by the id of the record it holds *)

(** Every stored record has a non-empty ID, which is its key. *)
Definition key_is_id (s : state) : Prop :=
  ∀ k l, index (treats (db s)) k = Some l → k ≠ "" ∧ ID (heap s !!! l) = k.

Definition stored (l : loc) (s : state) : Prop :=
  ∃ k, index (treats (db s)) k = Some l.

(** A call that hands the store a record it does not hold yet: the
    argument of [AddTreat] is not in the map. *)
Definition hands_over_new (c : call) (s : state) : Prop :=
  match c with
  | CallAddTreat (Some l) => ¬ stored l s
  | _ => True
  end.

(** The states of a store whose callers hand [AddTreat] records it does
    not hold and, when they write to a record they still share with the
    store ([*t = r]), leave its ID alone. *)
Inductive reachable : state → Prop :=
| reachable_new h : reachable (fresh h)
| reachable_call c s :
    reachable s → hands_over_new c s → reachable (exec c s).2
| reachable_write l r s :
    reachable s → (stored l s → ID r = ID (heap s !!! l)) →
    reachable {| heap := <[l := r]> (heap s); db := db s |}.

(** *** Ids and the counter *)

(** The ids the store holds; none once it is closed. *)
Definition held_ids (s : state) : gset string :=
  match treats (db s) with
  | None => ∅
  | Some m => dom m
  end.

(** Every id the store holds is one the counter has passed. *)
Definition keys_below (s : state) : Prop :=
  ∀ k l, index (treats (db s)) k = Some l →
         ∃ n, 1 ≤ n < nextID (db s) ∧ k = FormatInt n.

(** A call that brings no id of its own: an [UpdateTreat] names an id the
    store holds (or one the store refuses). *)
Definition updates_existing (c : call) (s : state) : Prop :=
  match c with
  | CallUpdateTreat (Some l) =>
      ID (heap s !!! l) = "" ∨ ID (heap s !!! l) ∈ held_ids s
  | _ => True
  end.

(** Two records that agree on every field but the ID. *)
Definition same_contents (a b : Treat) : Prop :=
  Title a = Title b ∧ Author a = Author b ∧
  PublishedDate a = PublishedDate b ∧ ImageURL a = ImageURL b ∧
  Description a = Description b.

(** [P] holds of every call of a run, in the state the call starts from. *)
Fixpoint all_along (P : call → state → Prop) (cs : list call) (s : state) : Prop :=
  match cs with
  | [] => True
  | c :: cs' => P c s ∧ all_along P cs' (exec c s).2
  end.

End list.

End MemoryDB.

(** ** Sample data

    Two records a caller has allocated, as in the listing scenario of the
    specification, and one that already carries an id. *)
Definition zeta : Treat := mkTreat "" "Zeta" "" "" "" "".
Definition alpha : Treat := mkTreat "" "Alpha" "" "" "" "".
Definition eclair : Treat := mkTreat "7" "Eclair" "" "" "" "".
Definition pantry : gmap loc Treat :=
  {[ 1%positive := zeta; 2%positive := alpha; 3%positive := eclair ]}.

(** ** A runtime to run the model on

    Iteration starts at an offset the seed picks; sorting is stdpp's merge
    sort. Any runtime that meets the contract would do. *)

Definition rotating_range (seed : N) (m : gmap string loc) : list (string * loc) :=
  rotate (N.to_nat seed) (map_to_list m).

Definition merge_sort_Slice (less : loc → loc → bool) (l : list loc) : list loc :=
  @merge_sort loc (λ x y, less y x = false)
    (λ x y, decide (less y x = false)) l.

(** ** The Cloud Firestore backend *)

Module FirestoreDB.

(** The part of [firestore.Client] the adapter calls. The service is not
    part of this repository: its state is [remote], and each call is taken
    as the client library exposes it, returning Go's [(value, error)].
    [Doc_Get c i] is [client.Collection(c).Doc(i).Get(ctx)], and likewise
    for [Set] and [Delete]; [DataTo ds t] fills [*t] from the snapshot and
    returns what became of [t] with its error. *)
Class Client : Type := {
  remote : Type;
  DocumentSnapshot : Type;
  RunTransaction_nop : remote → option error;
  Doc_Get : string → string → remote → DocumentSnapshot * option error;
  Doc_Set : string → string → Treat → remote → option error * remote;
  Doc_Delete : string → string → remote → option error * remote;
  DataTo : DocumentSnapshot → Treat → Treat * option error
}.

(** firestoreDB persists treats to Cloud Firestore. *)
Record firestoreDB : Type := mkFirestoreDB {
  collection : string
}.

Section adapter.
Context `{!Client}.

(** newFirestoreDB creates a new database backed by Cloud Firestore, once
    an empty transaction has gone through. *)
Definition newFirestoreDB (r : remote) : outcome (option firestoreDB) :=
  match RunTransaction_nop r with
  | Some err => Return None (Some (Errorf_v "firestoredb: could not connect: %v" err))
  | None => Return (Some {| collection := "books" |}) None
  end.

(** GetTreat retrieves a treat by its ID. The record it returns is newly
    allocated, so it is given by value; [None] is the nil pointer. *)
Definition GetTreat (db : firestoreDB) (id : string) (r : remote)
  : outcome (option Treat) * remote :=
  let (ds, err) := Doc_Get (collection db) id r in
  match err with
  | Some err => (Return None (Some (Errorf_v "firestoredb: Get: %v" err)), r)
  | None =>
      let t := zeroTreat in
      let (t', _) := DataTo ds t in
      (Return (Some t') None, r)
  end.

(** DeleteTreat removes a given treat by its ID. *)
Definition DeleteTreat (db : firestoreDB) (id : string) (r : remote)
  : outcome unit * remote :=
  match Doc_Delete (collection db) id r with
  | (Some err, r') => (Return () (Some (Errorf_v "firestore: Delete: %v" err)), r')
  | (None, r') => (Return () None, r')
  end.

(** UpdateTreat updates the entry for a given treat; [t] is the record
    the argument points to, which the adapter only reads. *)
Definition UpdateTreat (db : firestoreDB) (t : Treat) (r : remote)
  : outcome unit * remote :=
  match Doc_Set (collection db) (ID t) t r with
  | (Some err, r') => (Return () (Some (Errorf_v "firestsore: Set: %v" err)), r')
  | (None, r') => (Return () None, r')
  end.

End adapter.

(** *** The rest of the client: new documents, queries, closing *)

Section queries.
Context `{!Client}.

(** What one call of [iter.Next()] returns; a query is the list of these
    its iterator yields, and the end of the list is [iterator.Done]. *)
Inductive next_result : Type :=
| NextDoc (doc : DocumentSnapshot)
| NextError (err : error).

(** [NewDoc_ID c n] is [client.Collection(c).NewDoc().ID], an id the
    client library draws at random ([n] stands for the draw);
    [Query_Documents c f] is
    [client.Collection(c).Query.OrderBy(f, firestore.Asc).Documents(ctx)]. *)
Class QueryClient : Type := {
  NewDoc_ID : string → N → string;
  Doc_Create : string → string → Treat → remote → option error * remote;
  Query_Documents : string → string → remote → list next_result;
  Client_Close : remote → option error
}.

Context `{!QueryClient}.

(** Close closes the database. *)
Definition Close (r : remote) : outcome unit := Return () (Client_Close r).

(** AddTreat saves a given treat, assigning it a new ID. The record the
    argument points to is returned as the call leaves it. *)
Definition AddTreat (db : firestoreDB) (draw : N) (t : Treat) (r : remote)
  : outcome string * (Treat * remote) :=
  let ref_ID := NewDoc_ID (collection db) draw in
  let t' := set_ID ref_ID t in
  match Doc_Create (collection db) ref_ID t' r with
  | (Some err, r') => (Return "" (Some (Errorf_v "Create: %v" err)), (t', r'))
  | (None, r') => (Return ref_ID None, (t', r'))
  end.

(** The loop of ListTreats over the iterator; [log] collects the title
    and id [log.Printf] prints for each record. *)
Fixpoint ListTreats_loop (iter : list next_result) (treats : list Treat)
    (log : list (string * string))
  : outcome (list Treat) * list (string * string) :=
  match iter with
  | [] => (Return treats None, log)
  | NextError err :: _ =>
      (Return [] (Some (Errorf_v "firestoredb: could not list books: %v" err)), log)
  | NextDoc doc :: iter' =>
      let t := zeroTreat in
      let (t', _) := DataTo doc t in
      ListTreats_loop iter' (treats ++ [t']) (log ++ [(Title t', ID t')])
  end.

(** ListTreats returns a list of treats, ordered by title. *)
Definition ListTreats (db : firestoreDB) (r : remote)
  : outcome (list Treat) * list (string * string) :=
  ListTreats_loop (Query_Documents (collection db) "Title" r) [] [].

(** The record ListTreats makes of a document, and its log line. *)
Definition decoded (doc : DocumentSnapshot) : Treat := (DataTo doc zeroTreat).1.

Definition log_line (doc : DocumentSnapshot) : string * string :=
  (Title (decoded doc), ID (decoded doc)).

End queries.

(** *** A stand-in for the service

    Documents are schemaless lists of named fields kept under
    (collection, id); a document name needs a non-empty id, so [Set] and
    [Delete] refuse the empty one and otherwise [Set] overwrites or
    creates; [Get] of a missing document fails, and decoding stops at the
    first field that is not a string. *)

Inductive field_value : Type :=
| StringValue (s : string)
| IntegerValue (n : Z).

Definition document : Type := list (string * field_value).

Definition encode (t : Treat) : document :=
  [ ("ID", StringValue (ID t)); ("Title", StringValue (Title t));
    ("Author", StringValue (Author t));
    ("PublishedDate", StringValue (PublishedDate t));
    ("ImageURL", StringValue (ImageURL t));
    ("Description", StringValue (Description t)) ].

Definition set_field (name v : string) (t : Treat) : Treat :=
  if String.eqb name "ID" then set_ID v t
  else if String.eqb name "Title" then
    mkTreat (ID t) v (Author t) (PublishedDate t) (ImageURL t) (Description t)
  else if String.eqb name "Author" then
    mkTreat (ID t) (Title t) v (PublishedDate t) (ImageURL t) (Description t)
  else if String.eqb name "PublishedDate" then
    mkTreat (ID t) (Title t) (Author t) v (ImageURL t) (Description t)
  else if String.eqb name "ImageURL" then
    mkTreat (ID t) (Title t) (Author t) (PublishedDate t) v (Description t)
  else if String.eqb name "Description" then
    mkTreat (ID t) (Title t) (Author t) (PublishedDate t) (ImageURL t) v
  else t.

Fixpoint decode (d : document) (t : Treat) : Treat * option error :=
  match d with
  | [] => (t, None)
  | (name, StringValue v) :: d' => decode d' (set_field name v t)
  | (name, IntegerValue _) :: _ =>
      (t, Some (errors_New "firestore: cannot set type string to int"))
  end.

Definition stand_in : Client := {|
  remote := gmap (string * string) document;
  DocumentSnapshot := document;
  RunTransaction_nop := λ _, None;
  Doc_Get := λ c i r,
    match r !! (c, i) with
    | Some d => (d, None)
    | None => ([], Some (errors_New "rpc error: code = NotFound"))
    end;
  Doc_Set := λ c i t r,
    if decide (i = "") then (Some (errors_New "rpc error: code = InvalidArgument"), r)
    else (None, <[(c, i) := encode t]> r);
  Doc_Delete := λ c i r,
    if decide (i = "") then (Some (errors_New "rpc error: code = InvalidArgument"), r)
    else (None, delete (c, i) r);
  DataTo := decode
|}.

(** The stand-in answers a query with every document of the collection,
    and refuses to create a document that exists. *)
Definition stand_in_create (c i : string) (t : Treat)
    (r : gmap (string * string) document)
  : option error * gmap (string * string) document :=
  match r !! (c, i) with
  | Some _ => (Some (errors_New "rpc error: code = AlreadyExists"), r)
  | None => (None, <[(c, i) := encode t]> r)
  end.

Definition stand_in_documents (c : string) (r : gmap (string * string) document)
  : list document :=
  (filter (λ kd, kd.1.1 = c) (map_to_list r)).*2.

Definition stand_in_queries : @QueryClient stand_in :=
  @Build_QueryClient stand_in
    (λ _ n, "auto" +:+ FormatInt (Z.of_N n))
    stand_in_create
    (λ c _ r, @NextDoc stand_in <$> stand_in_documents c r)
    (λ _, None).

(** A service whose query breaks off after the first document. *)
Definition outage : @QueryClient stand_in :=
  @Build_QueryClient stand_in
    (λ _ n, "auto" +:+ FormatInt (Z.of_N n))
    (λ _ _ _ r, (Some (errors_New "rpc error: code = Unavailable"), r))
    (λ _ _ _,
       [ @NextDoc stand_in (encode zeroTreat);
         @NextError stand_in (errors_New "rpc error: code = Unavailable");
         @NextDoc stand_in (encode zeroTreat) ])
    (λ _, None).

(** The adapter [newFirestoreDB] builds, and a document whose Author
    field holds a number where [Treat] has a string. *)
Definition books : firestoreDB := {| collection := "books" |}.

Definition mistyped : document :=
  [ ("Title", StringValue "Eclair"); ("Author", IntegerValue 42) ].

End FirestoreDB.

(** ** The handlers, on the in-memory store

    The handlers of the treat shelf reach the store through
    [TreatDatabase]; here the shelf's [DB] is a [memoryDB]. What a
    request brings and what the services outside answer while it is
    served (Cloud Storage, the template engine, the runtime) is given
    with the request; the uploaded object itself, the log and the error
    report are not modelled. *)

Module Shelf.
Import MemoryDB.

#[global] Instance error_eq_dec : EqDecision error.
Proof. solve_decision. Defined.

(** [storage.ErrBucketNotExist]. *)
Definition ErrBucketNotExist : error := errors_New "storage: bucket doesn't exist".

(** What [r.FormFile(image)] returns. *)
Inductive form_file : Type :=
| ErrMissingFile                   (* err == http.ErrMissingFile *)
| FormFileError (err : error)
| FormFileHeader (Filename : string).

Record Request : Type := mkRequest {
  Vars_id : string;                (* mux.Vars(r)[id] *)
  FormValue : string → string;
  FormFile_image : form_file
}.

(** What a template is executed on. *)
Inductive page_data : Type :=
| DataNil
| DataTreat (t : ptr)
| DataTreats (ts : list loc).

(** What the world outside answers during one request. *)
Record externals : Type := mkExternals {
  range_seed : N;                              (* the order of the map range *)
  Bucket_Attrs : option error;                 (* t.StorageBucket.Attrs(ctx) *)
  uuid_NewV4 : string * option error;          (* uuid.NewV4(), the UUID as String() prints it *)
  path_Ext : string → string;
  io_Copy : option error;                      (* io.Copy(w, f) *)
  Writer_Close : option error;                 (* w.Close() *)
  template_Execute : string → page_data → option error
}.

Record Treatshelf : Type := mkTreatshelf {
  StorageBucket : bool;                        (* false: the handle is nil *)
  StorageBucketName : string
}.

(** [fmt.Sprintf(format, v...)], kept as the call. *)
Inductive text : Type := Sprintf (format : string) (v : list error).

Record appError : Type := mkAppError {
  err : error;
  message : text;
  code : Z
}.

(** What a handler did with the response writer. *)
Inductive action : Type :=
| Nothing
| Redirected (url : string) (status : Z)
| Executed (template : string) (data : page_data).

(** A handler returns a [*appError] (nil on success), or panics. *)
Inductive reply : Type :=
| Responded (e : option appError) (a : action)
| Panicked (p : panic).

Definition appErrorf (err : error) (format : string) (v : list error) : appError :=
  {| err := err; message := Sprintf format v; code := 500 |}.

(** The address [&Treat{...}] gets: one that holds nothing yet and that
    the store does not hold. *)
Definition new_loc (s : state) : loc :=
  stdpp.base.fresh (dom (heap s) ∪ list_to_set (stored_treats s) : gset loc).

Section handlers.
Context `{!GoRuntime} (t : Treatshelf) (x : externals).

(** Execute writes the template using the provided data. *)
Definition Execute (template : string) (data : page_data) : reply :=
  match template_Execute x template data with
  | Some err =>
      Responded (Some (appErrorf err "could not write template: %v" [err]))
                (Executed template data)
  | None => Responded None (Executed template data)
  end.

(** listHandler displays a list with summaries of treats in the database. *)
Definition listHandler (r : Request) (s : state) : reply * state :=
  match ListTreats (range_seed x) s with
  | (Panics p, s') => (Panicked p, s')
  | (Return _ (Some err), s') =>
      (Responded (Some (appErrorf err "could not list treats: %v" [err])) Nothing, s')
  | (Return treats None, s') => (Execute "list.html" (DataTreats treats), s')
  end.

(** treatFromRequest retrieves a treat from the database given a treat ID
    in the URL's path. *)
Definition treatFromRequest (r : Request) (s : state)
  : outcome ptr * state :=
  let id := Vars_id r in
  if decide (id = "") then
    (Return None (Some (errors_New "no treat with empty ID")), s)
  else
    match GetTreat id s with
    | (Panics p, s') => (Panics p, s')
    | (Return _ (Some err), s') =>
        (Return None (Some (Errorf_v "could not find treat: %v" err)), s')
    | (Return treat None, s') => (Return treat None, s')
    end.

(** detailHandler displays the details of a given treat. *)
Definition detailHandler (r : Request) (s : state) : reply * state :=
  match treatFromRequest r s with
  | (Panics p, s') => (Panicked p, s')
  | (Return _ (Some err), s') => (Responded (Some (appErrorf err "%v" [err])) Nothing, s')
  | (Return treat None, s') => (Execute "detail.html" (DataTreat treat), s')
  end.

(** addFormHandler displays a form that captures details of a new treat. *)
Definition addFormHandler (r : Request) (s : state) : reply * state :=
  (Execute "edit.html" DataNil, s).

(** editFormHandler displays a form that allows the user to edit the
    details of a given treat. *)
Definition editFormHandler (r : Request) (s : state) : reply * state :=
  match treatFromRequest r s with
  | (Panics p, s') => (Panicked p, s')
  | (Return _ (Some err), s') => (Responded (Some (appErrorf err "%v" [err])) Nothing, s')
  | (Return treat None, s') => (Execute "edit.html" (DataTreat treat), s')
  end.

(** uploadFileFromForm uploads a file if it's present in the image form
    field. *)
Definition uploadFileFromForm (r : Request) : outcome string :=
  match FormFile_image r with
  | ErrMissingFile => Return "" None
  | FormFileError err => Return "" (Some err)
  | FormFileHeader Filename =>
      if negb (StorageBucket t) then
        Return "" (Some (errors_New "storage bucket is missing: check treat.go"))
      else
        match Bucket_Attrs x with
        | Some err =>
            if decide (err = ErrBucketNotExist) then
              Return "" (Some (Errorf_q "bucket %q does not exist: check treat.go"
                                        (StorageBucketName t)))
            else Return "" (Some (Errorf_v "could not get bucket: %v" err))
        | None =>
            match uuid_NewV4 x with
            | (_, Some err) => Panics (Raised err)      (* uuid.Must *)
            | (u, None) =>
                let name := u +:+ path_Ext x Filename in
                match io_Copy x with
                | Some err => Return "" (Some err)
                | None =>
                    match Writer_Close x with
                    | Some err => Return "" (Some err)
                    | None =>
                        Return ("https://storage.googleapis.com/"
                                  +:+ StorageBucketName t +:+ "/" +:+ name) None
                    end
                end
            end
        end
  end.

(** The record treatFromForm builds from the form values. *)
Definition form_treat (r : Request) (imageURL : string) : Treat :=
  {| ID := "";
     Title := FormValue r "title";
     Author := FormValue r "author";
     PublishedDate := FormValue r "publishedDate";
     ImageURL := imageURL;
     Description := FormValue r "description" |}.

(** treatFromForm populates the fields of a Treat from form values. *)
Definition treatFromForm (r : Request) (s : state) : outcome ptr * state :=
  match uploadFileFromForm r with
  | Panics p => (Panics p, s)
  | Return _ (Some err) =>
      (Return None (Some (Errorf_v "could not upload file: %v" err)), s)
  | Return imageURL None =>
      let imageURL :=
        if decide (imageURL = "") then FormValue r "imageURL" else imageURL in
      let treat := new_loc s in
      (Return (Some treat) None,
       {| heap := <[treat := form_treat r imageURL]> (heap s); db := db s |})
  end.

(** createHandler adds a treat to the database. *)
Definition createHandler (r : Request) (s : state) : reply * state :=
  match treatFromForm r s with
  | (Panics p, s1) => (Panicked p, s1)
  | (Return _ (Some err), s1) =>
      (Responded (Some (appErrorf err "could not parse treat from form: %v" [err]))
                 Nothing, s1)
  | (Return treat None, s1) =>
      match AddTreat treat s1 with
      | (Panics p, s2) => (Panicked p, s2)
      | (Return _ (Some err), s2) =>
          (Responded (Some (appErrorf err "could not save treat: %v" [err])) Nothing, s2)
      | (Return id None, s2) =>
          (Responded None (Redirected ("/treats/" +:+ id) 302), s2)
      end
  end.

(** updateHandler updates the details of a given treat. *)
Definition updateHandler (r : Request) (s : state) : reply * state :=
  let id := Vars_id r in
  if decide (id = "") then
    (Responded (Some (appErrorf (errors_New "no treat with empty ID")
                                "no treat with empty ID" [])) Nothing, s)
  else
    match treatFromForm r s with
    | (Panics p, s1) => (Panicked p, s1)
    | (Return _ (Some err), s1) =>
        (Responded (Some (appErrorf err "could not parse treat from form: %v" [err]))
                   Nothing, s1)
    | (Return None None, s1) => (Panicked NilDereference, s1)
    | (Return (Some treat) None, s1) =>
        let s2 := {| heap := <[treat := set_ID id (heap s1 !!! treat)]> (heap s1);
                     db := db s1 |} in
        match UpdateTreat (Some treat) s2 with
        | (Panics p, s3) => (Panicked p, s3)
        | (Return _ (Some err), s3) =>
            (Responded (Some (appErrorf err "UpdateTreat: %v" [err])) Nothing, s3)
        | (Return _ None, s3) =>
            (Responded None
               (Redirected ("/treats/" +:+ ID (heap s3 !!! treat)) 302), s3)
        end
    end.

(** deleteHandler deletes a given treat. *)
Definition deleteHandler (r : Request) (s : state) : reply * state :=
  let id := Vars_id r in
  match DeleteTreat id s with
  | (Panics p, s') => (Panicked p, s')
  | (Return _ (Some err), s') =>
      (Responded (Some (appErrorf err "DeleteTreat: %v" [err])) Nothing, s')
  | (Return _ None, s') => (Responded None (Redirected "/treats" 302), s')
  end.

(** The public URL of an object in the shelf's bucket. *)
Definition public_url (name : string) : string :=
  "https://storage.googleapis.com/" +:+ StorageBucketName t +:+ "/" +:+ name.

(** The image URL treatFromForm gives the record: the uploaded object's
    public URL when a file was sent, the form's imageURL field when none
    was. *)
Definition image_url (r : Request) : string :=
  match FormFile_image r with
  | FormFileHeader Filename =>
      public_url ((uuid_NewV4 x).1 +:+ path_Ext x Filename)
  | _ => FormValue r "imageURL"
  end.

(** The handlers [registerHandlers] routes treat requests to. *)
Inductive handler : Type :=
| list_ | detail | addForm | editForm | create | update | delete_.

Definition serve (h : handler) (r : Request) (s : state) : reply * state :=
  match h with
  | list_ => listHandler r s
  | detail => detailHandler r s
  | addForm => addFormHandler r s
  | editForm => editFormHandler r s
  | create => createHandler r s
  | update => updateHandler r s
  | delete_ => deleteHandler r s
  end.

End handlers.

(** A request with a form and no file, a shelf with its bucket, and
    services that all answer. *)
Definition scone_form (field : string) : string :=
  if String.eqb field "title" then "Scone"
  else if String.eqb field "author" then "Ada"
  else if String.eqb field "imageURL" then "https://example.org/scone.png"
  else "".

Definition post_scone : Request :=
  {| Vars_id := "41"; FormValue := scone_form; FormFile_image := ErrMissingFile |}.

Definition post_scone_with_file : Request :=
  {| Vars_id := "41"; FormValue := scone_form;
     FormFile_image := FormFileHeader "scone.png" |}.

Definition shelf : Treatshelf :=
  {| StorageBucket := true; StorageBucketName := "tings_bucket" |}.

Definition all_well : externals :=
  {| range_seed := 0; Bucket_Attrs := None; uuid_NewV4 := ("0f8fad5b", None);
     path_Ext := λ _, ".png"; io_Copy := None; Writer_Close := None;
     template_Execute := λ _ _, None |}.

(** The same services, with a random source that fails. *)
Definition no_entropy : externals :=
  {| range_seed := 0; Bucket_Attrs := None;
     uuid_NewV4 := ("", Some (errors_New "unexpected EOF"));
     path_Ext := λ _, ".png"; io_Copy := None; Writer_Close := None;
     template_Execute := λ _ _, None |}.

End Shelf.

(** * Properties *)

(** ** Decimal ids *)

Section decimal.

Lemma id_value_FormatInt n : id_value (FormatInt n) = n.
Proof.
  unfold id_value, FormatInt.
  by rewrite NilEmpty.isi, DecimalZ.of_to.
Qed.

Lemma FormatInt_inj n m : FormatInt n = FormatInt m → n = m.
Proof.
  intros E. rewrite <-(id_value_FormatInt n), <-(id_value_FormatInt m).
  by rewrite E.
Qed.

Lemma FormatInt_nonempty n : FormatInt n ≠ "".
Proof.
  assert (N : ∀ d, NilEmpty.string_of_uint d = "" → d = Nil)
    by (by intros []).
  unfold FormatInt.
  destruct n as [|p|p]; [done| |done].
  intros E. by apply N, DecimalPos.Unsigned.to_uint_nonnil in E.
Qed.

Lemma wrap64_small z : min_int64 ≤ z ≤ max_int64 → wrap64 z = z.
Proof.
  unfold wrap64, min_int64, max_int64. intros R.
  rewrite Z.mod_small; lia.
Qed.

Lemma wrap64_range z : min_int64 ≤ wrap64 z ≤ max_int64.
Proof.
  unfold wrap64, min_int64, max_int64.
  pose proof (Z.mod_pos_bound (z + 2 ^ 63) (2 ^ 64)). lia.
Qed.

End decimal.

(** ** The string order and the runtime contract *)

Section order.

Lemma compare_refl (a : string) : String.compare a a = Eq.
Proof. by apply String_as_OT.cmp_eq. Qed.

Lemma ltb_lt (a b : string) : String.ltb a b = true ↔ String_as_OT.lt a b.
Proof.
  rewrite <-String_as_OT.cmp_lt. unfold String.ltb, String_as_OT.cmp.
  by destruct (String.compare a b).
Qed.

Lemma ltb_irrefl (a : string) : String.ltb a a = false.
Proof. unfold String.ltb. by rewrite compare_refl. Qed.

Lemma ltb_trans (a b c : string) :
  String.ltb a b = true → String.ltb b c = true → String.ltb a c = true.
Proof. rewrite !ltb_lt. apply String_as_OT.lt_trans. Qed.

(** [a < b] fails exactly when [b <= a]. *)
Lemma ltb_false_leb (a b : string) : String.ltb a b = false ↔ String.leb b a = true.
Proof.
  unfold String.ltb, String.leb. rewrite (String.compare_antisym a b).
  by destruct (String.compare b a).
Qed.

Lemma leb_cases (a b : string) : String.leb a b = true ↔ String.ltb a b = true ∨ a = b.
Proof.
  unfold String.leb, String.ltb. split.
  - destruct (String.compare a b) eqn:E; [|by left|done].
    right. by apply String.compare_eq_iff.
  - intros [L | ->]; [by destruct (String.compare a b)|].
    by rewrite compare_refl.
Qed.

Lemma leb_trans (a b c : string) :
  String.leb a b = true → String.leb b c = true → String.leb a c = true.
Proof.
  rewrite !leb_cases. intros [L1 | ->] [L2 | ->]; eauto using ltb_trans.
Qed.

Lemma StronglySorted_weaken {A} (R R' : relation A) (l : list A) :
  (∀ x y, R x y → R' x y) → StronglySorted R l → StronglySorted R' l.
Proof.
  intros W. induction 1 as [|x l S IH F]; constructor; [done|].
  eapply Forall_impl; eauto.
Qed.

Lemma StronglySorted_lookup_lt {A} (R : relation A) (l : list A) :
  StronglySorted R l →
  ∀ i j x y, l !! i = Some x → l !! j = Some y → (i < j)%nat → R x y.
Proof.
  induction 1 as [|a l S IH F]; intros i j x y Hi Hj Lt; [done|].
  destruct j as [|j]; [lia|]. destruct i as [|i]; simpl in *.
  - injection Hi as <-. rewrite Forall_lookup in F. eauto.
  - apply (IH i j); [done..|lia].
Qed.

Lemma title_less_swo h : StrictWeakOrder (MemoryDB.title_less h).
Proof.
  unfold MemoryDB.title_less. split.
  - intros x. apply ltb_irrefl.
  - intros x y z. apply ltb_trans.
  - intros x y z. rewrite !ltb_false_leb. eauto using leb_trans.
Qed.

Lemma rotating_range_perm seed m : rotating_range seed m ≡ₚ map_to_list m.
Proof.
  unfold rotating_range, rotate.
  rewrite Permutation_app_comm. by rewrite take_drop.
Qed.

Lemma merge_sort_Slice_perm less l : merge_sort_Slice less l ≡ₚ l.
Proof. apply merge_sort_Permutation. Qed.

Lemma merge_sort_Slice_sorted less l :
  StrictWeakOrder less →
  StronglySorted (λ x y, less y x = false) (merge_sort_Slice less l).
Proof.
  intros [Irr Tr Inc]. apply StronglySorted_merge_sort.
  - intros x y z Hxy Hyz. eauto.
  - intros x y. destruct (less y x) eqn:Lyx; [|by left].
    right. destruct (less x y) eqn:Lxy; [|done].
    by rewrite <-(Irr x), (Tr x y x).
Qed.

End order.

#[global] Instance reference_runtime : GoRuntime := {|
  map_range := rotating_range;
  map_range_perm := rotating_range_perm;
  sort_Slice := merge_sort_Slice;
  sort_Slice_perm := merge_sort_Slice_perm;
  sort_Slice_sorted := merge_sort_Slice_sorted
|}.

(** ** The in-memory store *)

Import MemoryDB.

Lemma index_empty id : index (Some ∅) id = None.
Proof. done. Qed.

Lemma sort_Slice_nil `{!GoRuntime} less : sort_Slice less [] = [].
Proof. apply Permutation_nil_r. by rewrite sort_Slice_perm. Qed.

Lemma map_range_empty `{!GoRuntime} seed : map_range seed ∅ = [].
Proof.
  apply Permutation_nil_r. by rewrite map_range_perm, map_to_list_empty.
Qed.

(** C3: whatever the state of the store, ListTreats returns no error and
    leaves the state alone; what it returns is the stored records, one
    per key, in ascending order of their titles (Go's bytewise string
    order); on a store with an empty map it is the empty sequence. *)
Theorem ListTreats_sorted_by_title `{!GoRuntime} :
  (∀ seed s, ∃ ts,
      ListTreats seed s = (Return ts None, s) ∧
      ts ≡ₚ stored_treats s ∧
      StronglySorted (title_le (heap s)) ts) ∧
  (∀ seed h n,
      ListTreats seed {| heap := h; db := {| nextID := n; treats := Some ∅ |} |}
      = (Return [] None,
         {| heap := h; db := {| nextID := n; treats := Some ∅ |} |})).
Proof.
  split.
  - intros seed s. eexists. split; [reflexivity|]. split.
    + rewrite sort_Slice_perm. unfold stored_treats.
      destruct (treats (db s)) as [m|]; [|done].
      by rewrite map_range_perm.
    + eapply StronglySorted_weaken; [|apply sort_Slice_sorted, title_less_swo].
      intros a b L. by apply ltb_false_leb.
  - intros seed h n. unfold ListTreats. simpl.
    by rewrite map_range_empty, sort_Slice_nil.
Qed.

Lemma ListTreats_sorted_by_title_witness :
  ∃ ts, ListTreats 0 (fresh pantry) = (Return ts None, fresh pantry) ∧
        ts ≡ₚ stored_treats (fresh pantry) ∧
        StronglySorted (title_le pantry) ts.
Proof. apply (proj1 ListTreats_sorted_by_title 0%N (fresh pantry)). Defined.

(** The listing scenario of the specification, on the reference
    runtime: Zeta is added first and listed last. *)
Example listing_scenario :
  (run [CallAddTreat (Some 1%positive); CallAddTreat (Some 2%positive);
        CallListTreats 0] (fresh pantry)).1
  = [Return (VID "1") None; Return (VID "2") None;
     Return (VTreats [2%positive; 1%positive]) None].
Proof. by vm_compute. Qed.

(** C6: DeleteTreat of the empty id fails with InvalidArgument, and
    DeleteTreat of a non-empty id that the store does not hold fails with
    NotFound, as does any non-empty id on an empty store; the state is
    left as it was. *)
Theorem DeleteTreat_errors :
  (∀ s, ∃ e, DeleteTreat "" s = (Return () (Some e), s) ∧
             kind_of e = Some InvalidArgument) ∧
  (∀ s id, id ≠ "" → index (treats (db s)) id = None →
     ∃ e, DeleteTreat id s = (Return () (Some e), s) ∧
          kind_of e = Some NotFound) ∧
  (∀ s id, id ≠ "" →
     ∃ e, DeleteTreat id (emptied s) = (Return () (Some e), emptied s) ∧
          kind_of e = Some NotFound).
Proof.
  assert (Missing : ∀ s id, id ≠ "" → index (treats (db s)) id = None →
     ∃ e, DeleteTreat id s = (Return () (Some e), s) ∧
          kind_of e = Some NotFound).
  { intros s id Hid Hno. unfold DeleteTreat.
    rewrite decide_False by done. rewrite Hno. eauto. }
  split; [|split].
  - intros s. eexists. split; reflexivity.
  - exact Missing.
  - intros s id Hid. by apply Missing.
Qed.

Lemma DeleteTreat_errors_witness :
  ∃ e, DeleteTreat "1" (fresh pantry) = (Return () (Some e), fresh pantry) ∧
       kind_of e = Some NotFound.
Proof.
  apply (proj1 (proj2 DeleteTreat_errors) (fresh pantry) "1");
    [discriminate | reflexivity].
Defined.

(** C1, as the code has it: UpdateTreat does not look the id up. On an
    open store a record with a non-empty id is stored under that id with
    no error, whether or not the id was present, and no UpdateTreat call
    ever fails with NotFound. *)
Theorem UpdateTreat_upserts :
  (∀ s l m,
     ID (heap s !!! l) ≠ "" → treats (db s) = Some m →
     UpdateTreat (Some l) s =
       (Return () None,
        {| heap := heap s;
           db := {| nextID := nextID (db s);
                    treats := Some (<[ID (heap s !!! l) := l]> m) |} |})) ∧
  (∀ s t e,
     returned_error (UpdateTreat t s).1 = Some e →
     kind_of e = Some InvalidArgument).
Proof.
  split.
  - intros s l m Hid Hm. unfold UpdateTreat.
    rewrite decide_False by done. by rewrite Hm.
  - intros s [l|] e; unfold UpdateTreat; [|done].
    case_decide; [by intros [= <-]|].
    by destruct (treats (db s)).
Qed.

Lemma UpdateTreat_upserts_witness :
  UpdateTreat (Some 3%positive) (fresh pantry) =
    (Return () None,
     {| heap := pantry;
        db := {| nextID := 1; treats := Some (<["7" := 3%positive]> ∅) |} |}).
Proof.
  apply (proj1 UpdateTreat_upserts (fresh pantry) 3%positive ∅);
    [discriminate | reflexivity].
Defined.

(** C1 fails as stated: on a new store, which holds no id at all,
    UpdateTreat of a record with id 7 returns no error and from then on
    the store holds the record under 7. *)
Lemma UpdateTreat_missing_id_succeeds :
  index (treats (db (fresh pantry))) "7" = None ∧
  (UpdateTreat (Some 3%positive) (fresh pantry)).1 = Return () None ∧
  index (treats (db (UpdateTreat (Some 3%positive) (fresh pantry)).2)) "7"
    = Some 3%positive.
Proof. by vm_compute. Qed.

(** C4: when AddTreat of a record returns an id, GetTreat of that id
    returns that very record with no error, and the record is the one
    handed in with its ID field set to the id: every other field is as it
    was. *)
Theorem GetTreat_after_AddTreat (s s' : state) (l : loc) (id : string) :
  AddTreat (Some l) s = (Return id None, s') →
  GetTreat id s' = (Return (Some l) None, s') ∧
  heap s' !!! l = set_ID id (heap s !!! l) ∧
  ID (heap s' !!! l) = id ∧
  Title (heap s' !!! l) = Title (heap s !!! l) ∧
  Author (heap s' !!! l) = Author (heap s !!! l) ∧
  PublishedDate (heap s' !!! l) = PublishedDate (heap s !!! l) ∧
  ImageURL (heap s' !!! l) = ImageURL (heap s !!! l) ∧
  Description (heap s' !!! l) = Description (heap s !!! l).
Proof.
  unfold AddTreat. destruct (treats (db s)) as [m|] eqn:Hm; [|done].
  intros [= <- <-]. unfold GetTreat, index. simpl.
  rewrite lookup_insert_eq, lookup_total_insert_eq. done.
Qed.

(** On an open store AddTreat of a record does return, with no error. *)
Lemma AddTreat_returns (s : state) (l : loc) (m : gmap string loc) :
  treats (db s) = Some m →
  ∃ s', AddTreat (Some l) s = (Return (FormatInt (nextID (db s))) None, s').
Proof. intros Hm. unfold AddTreat. rewrite Hm. eauto. Qed.

Lemma GetTreat_after_AddTreat_witness :
  GetTreat "1" (AddTreat (Some 1%positive) (fresh pantry)).2
    = (Return (Some 1%positive) None, (AddTreat (Some 1%positive) (fresh pantry)).2) ∧
  heap (AddTreat (Some 1%positive) (fresh pantry)).2 !!! 1%positive
    = mkTreat "1" "Zeta" "" "" "" "".
Proof.
  destruct (GetTreat_after_AddTreat (fresh pantry)
              (AddTreat (Some 1%positive) (fresh pantry)).2 1%positive "1")
    as (G & R & _); [reflexivity|].
  split; [exact G|]. etrans; [exact R | reflexivity].
Defined.

(** C10: a call that returns an error leaves the state as it was, heap,
    map and counter alike. That covers every method; and the calls named
    in the claim do return an error: GetTreat of an id the store does not
    hold, DeleteTreat of the empty id or of one it does not hold, and
    UpdateTreat of a record whose id is empty. *)
Theorem errors_leave_state_unchanged `{!GoRuntime} :
  (∀ c s e, returned_error (exec c s).1 = Some e → (exec c s).2 = s) ∧
  (∀ s id, index (treats (db s)) id = None →
     ∃ e, GetTreat id s = (Return None (Some e), s)) ∧
  (∀ s id, id = "" ∨ index (treats (db s)) id = None →
     ∃ e, DeleteTreat id s = (Return () (Some e), s)) ∧
  (∀ s l, ID (heap s !!! l) = "" →
     ∃ e, UpdateTreat (Some l) s = (Return () (Some e), s)).
Proof.
  repeat split.
  - intros [|id|[l|]|id|[l|]|seed] s e; simpl; try done.
    + unfold GetTreat. by destruct (index _ _).
    + unfold AddTreat. by destruct (treats (db s)).
    + unfold DeleteTreat. case_decide; [done|]. by destruct (index _ _).
    + unfold UpdateTreat. case_decide; [done|]. by destruct (treats (db s)).
  - intros s id Hno. unfold GetTreat. rewrite Hno. eauto.
  - intros s id Hid. unfold DeleteTreat. case_decide; [eauto|].
    destruct Hid as [?|Hno]; [done|]. rewrite Hno. eauto.
  - intros s l Hid. unfold UpdateTreat. rewrite decide_True by done. eauto.
Qed.

Lemma errors_leave_state_unchanged_witness :
  (exec (CallDeleteTreat "1") (fresh pantry)).2 = fresh pantry ∧
  (∃ e, GetTreat "1" (fresh pantry) = (Return None (Some e), fresh pantry)) ∧
  (∃ e, DeleteTreat "" (fresh pantry) = (Return () (Some e), fresh pantry)) ∧
  (∃ e, UpdateTreat (Some 1%positive) (fresh pantry)
        = (Return () (Some e), fresh pantry)).
Proof.
  destruct errors_leave_state_unchanged as (Any & Get & Del & Upd).
  split; [|split; [|split]].
  - eapply (Any (CallDeleteTreat "1") (fresh pantry)). reflexivity.
  - apply Get. reflexivity.
  - apply Del. by left.
  - apply Upd. reflexivity.
Defined.

(** C7, as the code has it: Close returns no error and leaves the map
    nil. From then on ListTreats returns the empty sequence with no
    error, and GetTreat and DeleteTreat return the error they return on
    an empty store, as does UpdateTreat of a record with an empty id; but
    AddTreat, and UpdateTreat of a record with a non-empty id, do not
    return: they panic on the assignment into the nil map. *)
Theorem after_Close `{!GoRuntime} (s : state) :
  let closed := (Close s).2 in
  (Close s).1 = Return () None ∧
  (∀ seed, ListTreats seed closed = (Return [] None, closed)) ∧
  (∀ id, ∃ e, GetTreat id closed = (Return None (Some e), closed) ∧
              (GetTreat id (emptied s)).1 = Return None (Some e)) ∧
  (∀ id, ∃ e, DeleteTreat id closed = (Return () (Some e), closed) ∧
              (DeleteTreat id (emptied s)).1 = Return () (Some e)) ∧
  (∀ l, ID (heap s !!! l) = "" →
        ∃ e, UpdateTreat (Some l) closed = (Return () (Some e), closed) ∧
             (UpdateTreat (Some l) (emptied s)).1 = Return () (Some e)) ∧
  (∀ l, ID (heap s !!! l) ≠ "" →
        (UpdateTreat (Some l) closed).1 = Panics NilMapAssignment) ∧
  (∀ l, (AddTreat (Some l) closed).1 = Panics NilMapAssignment).
Proof.
  simpl. repeat split.
  - intros seed. unfold ListTreats. simpl. by rewrite sort_Slice_nil.
  - intros id. eexists. split; reflexivity.
  - intros id. unfold DeleteTreat. case_decide; eexists; split; reflexivity.
  - intros l Hid. unfold UpdateTreat. simpl.
    rewrite !decide_True by done. eexists. split; reflexivity.
  - intros l Hid. unfold UpdateTreat. simpl. by rewrite decide_False.
Qed.

Lemma after_Close_witness :
  (UpdateTreat (Some 3%positive) (Close (fresh pantry)).2).1
    = Panics NilMapAssignment ∧
  (∃ e, UpdateTreat (Some 1%positive) (Close (fresh pantry)).2
        = (Return () (Some e), (Close (fresh pantry)).2)).
Proof.
  destruct (after_Close (fresh pantry)) as (_ & _ & _ & _ & Empty & Full & _).
  split.
  - apply Full. discriminate.
  - destruct (Empty 1%positive) as (e & R & _); [reflexivity|]. eauto.
Defined.

(** C7 fails as stated: after Close, AddTreat neither returns an error
    nor does what it does on an empty store, where it returns id 1 with
    no error; it panics. *)
Lemma AddTreat_after_Close_panics :
  (AddTreat (Some 1%positive) (Close (fresh pantry)).2).1
    = Panics NilMapAssignment ∧
  (AddTreat (Some 1%positive) (emptied (fresh pantry))).1 = Return "1" None.
Proof. by vm_compute. Qed.

(** ** The ids AddTreat hands out *)

Lemma wrap64_idemp a b : wrap64 (wrap64 a + b) = wrap64 (a + b).
Proof.
  unfold wrap64. f_equal.
  replace ((a + 2 ^ 63) mod 2 ^ 64 - 2 ^ 63 + b + 2 ^ 63)
    with ((a + 2 ^ 63) mod 2 ^ 64 + b) by lia.
  rewrite Zplus_mod_idemp_l. f_equal. lia.
Qed.

Lemma seqZ_increasing (k : nat) :
  ∀ m, StronglySorted Z.lt (seqZ m (Z.of_nat k)).
Proof.
  induction k as [|k IH]; intros m.
  - rewrite seqZ_nil by lia. constructor.
  - rewrite seqZ_cons by lia.
    replace (Z.pred (Z.of_nat (S k))) with (Z.of_nat k) by lia.
    constructor; [apply IH|].
    apply Forall_lookup. intros i x [-> _]%lookup_seqZ. lia.
Qed.

(** Only AddTreat moves the counter, by one, and it hands out the
    counter's value before the move. *)
Lemma exec_counter `{!GoRuntime} (c : call) (s : state) :
  match assigned (exec c s).1 with
  | Some i =>
      i = FormatInt (nextID (db s)) ∧
      nextID (db (exec c s).2) = wrap64 (nextID (db s) + 1)
  | None => nextID (db (exec c s).2) = nextID (db s)
  end.
Proof.
  destruct c as [|i|[l|]|i|[l|]|seed]; simpl; try done.
  - unfold GetTreat. by destruct (index _ _).
  - unfold AddTreat. by destruct (treats (db s)).
  - unfold DeleteTreat. case_decide; [done|]. by destruct (index _ _).
  - unfold UpdateTreat. case_decide; [done|]. by destruct (treats (db s)).
Qed.

Lemma run_cons `{!GoRuntime} (c : call) (cs : list call) (s : state) :
  run (c :: cs) s = ((exec c s).1 :: (run cs (exec c s).2).1,
                     (run cs (exec c s).2).2).
Proof.
  simpl. destruct (exec c s) as [o s']. simpl.
  by destruct (run cs s').
Qed.

Lemma assigned_ids_cons (o : outcome value) (os : list (outcome value)) :
  assigned_ids (o :: os) =
    match assigned o with
    | Some i => i :: assigned_ids os
    | None => assigned_ids os
    end.
Proof. done. Qed.

(** From any counter value on: as long as the counter does not pass the
    largest int64, the ids handed out are the consecutive integers from
    the counter on, in decimal. *)
Lemma assigned_ids_from `{!GoRuntime} (cs : list call) :
  ∀ s,
    min_int64 ≤ nextID (db s) →
    nextID (db s) + Z.of_nat (length (assigned_ids (run cs s).1)) ≤ 2 ^ 63 →
    assigned_ids (run cs s).1
    = FormatInt <$> seqZ (nextID (db s))
                         (Z.of_nat (length (assigned_ids (run cs s).1))).
Proof.
  induction cs as [|c cs IH]; intros s Lo Hi; [done|].
  revert Hi. rewrite run_cons. simpl fst. rewrite assigned_ids_cons.
  pose proof (exec_counter c s) as C.
  destruct (assigned (exec c s).1) as [i|].
  - destruct C as [-> Next]. intros Hi.
    rewrite length_cons in *. rewrite seqZ_cons by lia.
    rewrite fmap_cons. f_equal.
    replace (Z.pred (Z.of_nat (S (length (assigned_ids (run cs (exec c s).2).1)))))
      with (Z.of_nat (length (assigned_ids (run cs (exec c s).2).1))) by lia.
    destruct (decide (nextID (db s) + 1 ≤ max_int64)) as [Fits|Over].
    + rewrite wrap64_small in Next by (unfold max_int64 in *; lia).
      rewrite IH; rewrite Next; try (unfold min_int64, max_int64 in *; lia).
      replace (nextID (db s) + 1) with (Z.succ (nextID (db s))) by lia.
      by rewrite length_fmap, length_seqZ, Nat2Z.id.
    + destruct (assigned_ids (run cs (exec c s).2).1) as [|? ?] eqn:E;
        [by rewrite seqZ_nil by done|].
      rewrite length_cons in Hi. unfold max_int64 in Over. lia.
  - intros Hi. rewrite <-C. apply IH; by rewrite C.
Qed.

(** C2, as the code has it: an AddTreat that returns hands out the
    counter's value in decimal and moves the counter on by one, with no
    error; and on a new store, whatever calls are made in between, as
    long as fewer than 2^63 ids have been handed out they are 1, 2, 3,
    ... in decimal: strictly increasing and never handed out twice, also
    after the record that held one was deleted. *)
Theorem AddTreat_ids_count_up `{!GoRuntime} :
  (∀ s t id s',
     AddTreat t s = (Return id None, s') →
     id = FormatInt (nextID (db s)) ∧
     nextID (db s') = wrap64 (nextID (db s) + 1)) ∧
  (∀ s t, returned_error (AddTreat t s).1 = None) ∧
  (∀ h cs,
     let ids := assigned_ids (run cs (fresh h)).1 in
     Z.of_nat (length ids) < 2 ^ 63 →
     ids = FormatInt <$> seqZ 1 (Z.of_nat (length ids)) ∧
     StronglySorted id_lt ids ∧
     NoDup ids).
Proof.
  split; [|split].
  - intros s [l|] id s'; unfold AddTreat; [|done].
    destruct (treats (db s)); [|done]. by intros [= <- <-].
  - intros s [l|]; unfold AddTreat; [|done]. by destruct (treats (db s)).
  - intros h cs ids Few.
    assert (E : ids = FormatInt <$> seqZ 1 (Z.of_nat (length ids))).
    { apply (assigned_ids_from cs (fresh h)); simpl; [done|].
      fold ids. lia. }
    split; [done|]. rewrite E. split.
    + eapply StronglySorted_fmap; [|apply seqZ_increasing].
      intros x y L. unfold id_lt. by rewrite !id_value_FormatInt.
    + apply NoDup_fmap_2; [|apply NoDup_seqZ].
      intros x y. apply FormatInt_inj.
Qed.

Lemma AddTreat_ids_count_up_witness :
  assigned_ids (run [CallAddTreat (Some 1%positive); CallDeleteTreat "1";
                     CallAddTreat (Some 2%positive)] (fresh pantry)).1
  = ["1"; "2"].
Proof.
  destruct (proj2 (proj2 AddTreat_ids_count_up) pantry
              [CallAddTreat (Some 1%positive); CallDeleteTreat "1";
               CallAddTreat (Some 2%positive)]) as (E & _); [by vm_compute|].
  etrans; [exact E | reflexivity].
Defined.

(** What a run of [n] AddTreat calls on an open store hands out, with the
    wrap-around. *)
Lemma exec_AddTreat_open `{!GoRuntime} (l : loc) (s : state) m :
  treats (db s) = Some m →
  exec (CallAddTreat (Some l)) s =
    (Return (VID (FormatInt (nextID (db s)))) None,
     {| heap := <[l := set_ID (FormatInt (nextID (db s))) (heap s !!! l)]> (heap s);
        db := {| nextID := wrap64 (nextID (db s) + 1);
                 treats := Some (<[FormatInt (nextID (db s)) := l]> m) |} |}).
Proof. intros Hm. simpl. unfold AddTreat. by rewrite Hm. Qed.

Lemma adds_assigned_ids `{!GoRuntime} (l : loc) (n : nat) :
  ∀ s,
    is_Some (treats (db s)) →
    min_int64 ≤ nextID (db s) ≤ max_int64 →
    assigned_ids (run (replicate n (CallAddTreat (Some l))) s).1
    = (λ i, FormatInt (wrap64 (nextID (db s) + i))) <$> seqZ 0 (Z.of_nat n).
Proof.
  induction n as [|n IH]; intros s [m Hm] R; [done|].
  rewrite replicate_S, run_cons, (exec_AddTreat_open l s m Hm).
  simpl fst. simpl snd. rewrite assigned_ids_cons. simpl assigned.
  rewrite IH by (simpl; eauto using wrap64_range).
  rewrite (seqZ_cons 0 (Z.of_nat (S n))) by lia. rewrite fmap_cons.
  simpl nextID. rewrite Z.add_0_r, (wrap64_small (nextID (db s))) by done.
  f_equal.
  replace (Z.pred (Z.of_nat (S n))) with (Z.of_nat n) by lia.
  rewrite <-(fmap_add_seqZ 1 0), <-list_fmap_compose.
  apply list_fmap_ext. intros _ i _. simpl.
  rewrite wrap64_idemp. do 2 f_equal. lia.
Qed.

(** C2 fails as stated: the counter is an int64. On a new store the
    AddTreat call number 2^63 - 1 hands out 9223372036854775807 and the
    next one -9223372036854775808, which is not larger. *)
Lemma AddTreat_ids_wrap_around :
  let ids :=
    assigned_ids (run (replicate (Z.to_nat (2 ^ 63))
                                 (CallAddTreat (Some 1%positive)))
                      (fresh pantry)).1 in
  ids !! Z.to_nat (2 ^ 63 - 2) = Some "9223372036854775807" ∧
  ids !! Z.to_nat (2 ^ 63 - 1) = Some "-9223372036854775808" ∧
  ¬ id_lt "9223372036854775807" "-9223372036854775808" ∧
  ¬ StronglySorted id_lt ids.
Proof.
  intros ids.
  assert (Last : ids !! Z.to_nat (2 ^ 63 - 2) = Some "9223372036854775807").
  { subst ids. rewrite adds_assigned_ids; [|by eexists|by split].
    rewrite list_lookup_fmap.
    rewrite lookup_seqZ_lt by (rewrite !Z2Nat.id; lia).
    rewrite Z2Nat.id by lia. vm_compute. reflexivity. }
  assert (Wrapped : ids !! Z.to_nat (2 ^ 63 - 1) = Some "-9223372036854775808").
  { subst ids. rewrite adds_assigned_ids; [|by eexists|by split].
    rewrite list_lookup_fmap.
    rewrite lookup_seqZ_lt by (rewrite !Z2Nat.id; lia).
    rewrite Z2Nat.id by lia. vm_compute. reflexivity. }
  assert (Down : ¬ id_lt "9223372036854775807" "-9223372036854775808").
  { unfold id_lt. vm_compute. by intros [=]. }
  split; [exact Last|]. split; [exact Wrapped|]. split; [exact Down|].
  intros Sorted. apply Down.
  eapply (StronglySorted_lookup_lt _ _ Sorted); [exact Last|exact Wrapped|].
  apply Z2Nat.inj_lt; lia.
Qed.

(** ** Keys and ids *)

Lemma key_is_id_fresh h : key_is_id (fresh h).
Proof. intros k l. unfold index. simpl. by rewrite lookup_empty. Qed.

Lemma key_is_id_AddTreat (s : state) (l : loc) :
  key_is_id s → ¬ stored l s → key_is_id (AddTreat (Some l) s).2.
Proof.
  intros Inv New k l'. unfold AddTreat.
  destruct (treats (db s)) as [m|] eqn:Hm; simpl; [|by rewrite Hm].
  destruct (decide (k = FormatInt (nextID (db s)))) as [->|Hk].
  - rewrite lookup_insert_eq. intros [= <-].
    rewrite lookup_total_insert_eq. split; [apply FormatInt_nonempty|done].
  - rewrite lookup_insert_ne by done. intros Hl'.
    assert (l' ≠ l).
    { intros ->. apply New. exists k. by rewrite Hm. }
    rewrite lookup_total_insert_ne by done.
    apply Inv. by rewrite Hm.
Qed.

Lemma key_is_id_UpdateTreat (s : state) (t : ptr) :
  key_is_id s → key_is_id (UpdateTreat t s).2.
Proof.
  intros Inv. destruct t as [l|]; unfold UpdateTreat; [|done].
  case_decide as Hid; [done|].
  destruct (treats (db s)) as [m|] eqn:Hm; [|done].
  intros k l'. simpl.
  destruct (decide (k = ID (heap s !!! l))) as [->|Hk].
  - rewrite lookup_insert_eq. by intros [= <-].
  - rewrite lookup_insert_ne by done. intros Hl'.
    apply Inv. by rewrite Hm.
Qed.

Lemma key_is_id_DeleteTreat (s : state) (id : string) :
  key_is_id s → key_is_id (DeleteTreat id s).2.
Proof.
  intros Inv. unfold DeleteTreat. case_decide; [done|].
  destruct (index (treats (db s)) id) eqn:Hi; [|done].
  intros k l'. simpl.
  destruct (treats (db s)) as [m|] eqn:Hm; [|done]. simpl.
  intros [_ Hl']%lookup_delete_Some. apply Inv. by rewrite Hm.
Qed.

(** C8, as the code has it: the store keeps the records it is handed,
    not copies. As long as AddTreat is handed a record the store does not
    hold yet, each method keeps every stored record under a non-empty key
    equal to its ID; so does a caller's write to a shared record that
    leaves its ID alone; and every state reached that way from a new
    store has the property. *)
Theorem key_is_id_invariant `{!GoRuntime} :
  (∀ c s, key_is_id s → hands_over_new c s → key_is_id (exec c s).2) ∧
  (∀ s, reachable s → key_is_id s).
Proof.
  assert (Step : ∀ c s,
    key_is_id s → hands_over_new c s → key_is_id (exec c s).2).
  { intros [|id|[l|]|id|t|seed] s Inv New; simpl.
    - by intros k l.
    - unfold GetTreat. by destruct (index _ _).
    - by apply key_is_id_AddTreat.
    - done.
    - by apply key_is_id_DeleteTreat.
    - by apply key_is_id_UpdateTreat.
    - done. }
  split; [exact Step|].
  induction 1 as [h|c s _ IH New|l r s _ IH Keep].
  - apply key_is_id_fresh.
  - by apply Step.
  - intros k l' Hk. simpl in *. destruct (IH k l' Hk) as [Hne Hid].
    split; [done|].
    destruct (decide (l' = l)) as [->|Hl].
    + rewrite lookup_total_insert_eq, Keep; [done|by exists k].
    + by rewrite lookup_total_insert_ne.
Qed.

Lemma key_is_id_invariant_witness :
  key_is_id (exec (CallAddTreat (Some 1%positive)) (fresh pantry)).2.
Proof.
  apply (proj1 key_is_id_invariant (CallAddTreat (Some 1%positive)) (fresh pantry)).
  - apply key_is_id_fresh.
  - intros [k Hk]. unfold index in Hk. simpl in Hk.
    by rewrite lookup_empty in Hk.
Defined.

(** C8 fails as stated: AddTreat overwrites the ID of the record it is
    handed. Handed the same record twice, it leaves that record under
    key 1 with ID 2. *)
Lemma AddTreat_twice_breaks_key_is_id :
  let s := (run [CallAddTreat (Some 1%positive);
                 CallAddTreat (Some 1%positive)] (fresh pantry)).2 in
  index (treats (db s)) "1" = Some 1%positive ∧
  ID (heap s !!! 1%positive) = "2" ∧
  ¬ key_is_id s.
Proof.
  assert (K : index (treats (db (run [CallAddTreat (Some 1%positive);
                 CallAddTreat (Some 1%positive)] (fresh pantry)).2)) "1"
              = Some 1%positive) by (by vm_compute).
  assert (I : ID (heap (run [CallAddTreat (Some 1%positive);
                 CallAddTreat (Some 1%positive)] (fresh pantry)).2
                 !!! 1%positive) = "2") by (by vm_compute).
  split; [exact K|]. split; [exact I|].
  intros Inv. destruct (Inv "1" 1%positive K) as [_ Bad].
  assert (E : "2" = "1") by (etrans; [symmetry; exact I | exact Bad]).
  discriminate E.
Qed.

(** ** The Firestore adapter *)

Section firestore.
Import FirestoreDB.

(** A failed fetch is returned, wrapped. *)
Lemma GetTreat_fetch_error `{!Client} db id r ds cause :
  Doc_Get (collection db) id r = (ds, Some cause) →
  FirestoreDB.GetTreat db id r
    = (Return None (Some (Errorf_v "firestoredb: Get: %v" cause)), r) ∧
  kind_of (Errorf_v "firestoredb: Get: %v" cause) = Some BackendError.
Proof. intros G. unfold FirestoreDB.GetTreat. by rewrite G. Qed.

(** C9 does not hold of the code: GetTreat calls DataTo and drops the
    error it returns. When the fetch succeeds and decoding the snapshot
    fails, GetTreat returns the record as far as DataTo filled it,
    with a nil error. *)
Theorem GetTreat_drops_DataTo_error `{!Client} db id r ds t' cause :
  Doc_Get (collection db) id r = (ds, None) →
  DataTo ds zeroTreat = (t', Some cause) →
  FirestoreDB.GetTreat db id r = (Return (Some t') None, r).
Proof. intros G D. unfold FirestoreDB.GetTreat. by rewrite G, D. Qed.

Lemma GetTreat_drops_DataTo_error_witness :
  @FirestoreDB.GetTreat stand_in books "7" {[ ("books", "7") := mistyped ]}
  = (Return (Some (mkTreat "" "Eclair" "" "" "" "")) None,
     {[ ("books", "7") := mistyped ]}).
Proof.
  apply (@GetTreat_drops_DataTo_error stand_in books "7"
           {[ ("books", "7") := mistyped ]} mistyped
           (mkTreat "" "Eclair" "" "" "" "")
           (errors_New "firestore: cannot set type string to int"));
    reflexivity.
Defined.





End firestore.

(** * Further properties of the in-memory store *)

Section memory_compose.

Lemma index_delete (m : option (gmap string loc)) (id k : string) :
  index (delete id <$> m) k = if decide (k = id) then None else index m k.
Proof.
  destruct m as [m|]; simpl; [|by case_decide].
  case_decide as E; [subst; apply lookup_delete_eq|by apply lookup_delete_ne].
Qed.

(** X1: DeleteTreat returns no error exactly when the id is non-empty and
    held. It then removes that id and nothing else: the other ids, the
    records and the counter stay, GetTreat of the id fails with NotFound
    and so does a second DeleteTreat. *)
Theorem DeleteTreat_removes_one_id (s : state) (id : string) :
  ((DeleteTreat id s).1 = Return () None ↔
     id ≠ "" ∧ is_Some (index (treats (db s)) id)) ∧
  ((DeleteTreat id s).1 = Return () None →
     let s' := (DeleteTreat id s).2 in
     heap s' = heap s ∧ nextID (db s') = nextID (db s) ∧
     (∀ k, k ≠ id → index (treats (db s')) k = index (treats (db s)) k) ∧
     (∃ e, GetTreat id s' = (Return None (Some e), s') ∧
           kind_of e = Some NotFound) ∧
     (∃ e, DeleteTreat id s' = (Return () (Some e), s') ∧
           kind_of e = Some NotFound)).
Proof.
  unfold DeleteTreat. case_decide as Hid.
  { split; [split; [done|by intros []]|done]. }
  destruct (index (treats (db s)) id) as [l|] eqn:Hi.
  - split; [split; [eauto|done]|]. intros _. simpl.
    split; [done|]. split; [done|]. split.
    { intros k Hk. rewrite index_delete. by rewrite decide_False. }
    unfold GetTreat. simpl.
    rewrite index_delete, decide_True by done.
    split; eexists; split; reflexivity.
  - split; [split; [done|by intros [_ []]]|done].
Qed.

Lemma DeleteTreat_removes_one_id_witness :
  let s := (AddTreat (Some 1%positive) (fresh pantry)).2 in
  ∃ e, GetTreat "1" (DeleteTreat "1" s).2
       = (Return None (Some e), (DeleteTreat "1" s).2) ∧
       kind_of e = Some NotFound.
Proof.
  intros s.
  destruct (DeleteTreat_removes_one_id s "1") as [_ After].
  destruct After as (_ & _ & _ & Get & _); [reflexivity|exact Get].
Defined.

(** X2: on a store that has not been closed, UpdateTreat of a record with
    a non-empty id makes GetTreat of that id return that very record; the
    other ids, every record and the counter are as before, and doing the
    same update again changes nothing. *)
Theorem GetTreat_after_UpdateTreat (s : state) (l : loc) :
  is_Some (treats (db s)) → ID (heap s !!! l) ≠ "" →
  let s' := (UpdateTreat (Some l) s).2 in
  GetTreat (ID (heap s !!! l)) s' = (Return (Some l) None, s') ∧
  heap s' = heap s ∧ nextID (db s') = nextID (db s) ∧
  (∀ k, k ≠ ID (heap s !!! l) →
        index (treats (db s')) k = index (treats (db s)) k) ∧
  UpdateTreat (Some l) s' = (Return () None, s').
Proof.
  intros [m Hm] Hid. unfold UpdateTreat.
  rewrite decide_False by done. rewrite Hm. simpl.
  rewrite decide_False by done.
  split; [unfold GetTreat; simpl; by rewrite lookup_insert_eq|].
  split; [done|]. split; [done|]. split.
  - intros k Hk. simpl. by rewrite lookup_insert_ne.
  - by rewrite insert_insert_eq.
Qed.

Lemma GetTreat_after_UpdateTreat_witness :
  GetTreat "7" (UpdateTreat (Some 3%positive) (fresh pantry)).2
  = (Return (Some 3%positive) None, (UpdateTreat (Some 3%positive) (fresh pantry)).2).
Proof.
  apply (GetTreat_after_UpdateTreat (fresh pantry) 3%positive);
    [by eexists | discriminate].
Defined.

Lemma elem_of_held_ids (s : state) (k : string) :
  k ∈ held_ids s ↔ is_Some (index (treats (db s)) k).
Proof.
  unfold held_ids, index. destruct (treats (db s)) as [m|]; simpl.
  - apply elem_of_dom.
  - split; [set_solver|by intros []].
Qed.

Lemma keys_below_exec `{!GoRuntime} (c : call) (s : state) :
  keys_below s → 1 ≤ nextID (db s) < max_int64 → updates_existing c s →
  keys_below (exec c s).2 ∧
  nextID (db s) ≤ nextID (db (exec c s).2) ≤ nextID (db s) + 1.
Proof.
  intros Inv Range Upd.
  destruct c as [|id|[l|]|id|[l|]|seed]; simpl.
  - split; [by intros k l|simpl; lia].
  - unfold GetTreat. destruct (index _ _); (split; [done|simpl; lia]).
  - unfold AddTreat. destruct (treats (db s)) as [m|] eqn:Hm; simpl.
    + rewrite wrap64_small by (unfold min_int64, max_int64 in *; lia).
      split; [|simpl; lia]. intros k l'. unfold index. simpl.
      destruct (decide (k = FormatInt (nextID (db s)))) as [->|Hk].
      * intros _. exists (nextID (db s)). split; [lia|done].
      * rewrite lookup_insert_ne by done. intros Hl.
        destruct (Inv k l') as (n & ? & ->); [by rewrite Hm|].
        exists n. split; [lia|done].
    + split; [|simpl; lia]. intros k l'. simpl. by rewrite Hm.
  - split; [done|simpl; lia].
  - unfold DeleteTreat. case_decide; [split; [done|simpl; lia]|].
    destruct (index (treats (db s)) id) eqn:Hi; (split; [|simpl; lia]); [|done].
    intros k l'. simpl. rewrite index_delete. case_decide; [done|]. apply Inv.
  - unfold UpdateTreat. case_decide as Hid; [split; [done|simpl; lia]|].
    destruct (treats (db s)) as [m|] eqn:Hm; (split; [|simpl; lia]); [|done].
    intros k l'. unfold index. simpl.
    destruct (decide (k = ID (heap s !!! l))) as [->|Hk].
    * intros _. destruct Upd as [?|[l0 Hl0]%elem_of_held_ids]; [done|].
      destruct (Inv _ _ Hl0) as (n & ? & E). exists n. by rewrite E.
    * rewrite lookup_insert_ne by done. intros Hl.
      apply (Inv k l'). by rewrite Hm.
  - split; [done|simpl; lia].
  - split; [done|simpl; lia].
Qed.

Lemma keys_below_run `{!GoRuntime} (cs : list call) :
  ∀ s, keys_below s → 1 ≤ nextID (db s) →
       nextID (db s) + Z.of_nat (length cs) ≤ max_int64 →
       all_along updates_existing cs s →
       keys_below (run cs s).2 ∧
       1 ≤ nextID (db (run cs s).2) ≤ nextID (db s) + Z.of_nat (length cs).
Proof.
  induction cs as [|c cs IH]; intros s Inv Lo Hi Along.
  - simpl. split; [done|lia].
  - rewrite run_cons. simpl snd. destruct Along as [Upd Along].
    rewrite length_cons in Hi.
    destruct (keys_below_exec c s Inv) as [Inv' Step]; [lia|done|].
    destruct (IH (exec c s).2 Inv') as [Inv'' Fin]; [lia|lia|done|].
    split; [done|]. rewrite length_cons. lia.
Qed.

(** X3: the id AddTreat is about to hand out is one the store does not
    hold. On a new store, after fewer than 2^63 - 1 calls none of which
    is an UpdateTreat that names an id the store does not hold, every id
    held is the decimal of a number the counter has passed, so the next
    AddTreat replaces no entry. *)
Theorem AddTreat_id_is_unused `{!GoRuntime} (h : gmap loc Treat) (cs : list call) :
  all_along updates_existing cs (fresh h) →
  Z.of_nat (length cs) < 2 ^ 63 - 1 →
  let s := (run cs (fresh h)).2 in
  keys_below s ∧
  (FormatInt (nextID (db s)) ∉ held_ids s) ∧
  (∀ l, held_ids (AddTreat (Some l) s).2
        ⊆ held_ids s ∪ {[ FormatInt (nextID (db s)) ]}).
Proof.
  intros Along Few s.
  assert (New : keys_below (fresh h)).
  { intros k l. unfold index. simpl. by rewrite lookup_empty. }
  destruct (keys_below_run cs (fresh h) New) as [Inv Range];
    [simpl; lia|simpl; unfold max_int64; lia|done|].
  fold s in Inv, Range. clearbody s. clear Along Few New.
  split; [done|]. split.
  - rewrite elem_of_held_ids. intros [l Hl].
    destruct (Inv _ _ Hl) as (n & ? & E%FormatInt_inj). lia.
  - intros l. unfold AddTreat.
    destruct (treats (db s)) as [m|] eqn:Hm; unfold held_ids; simpl;
      rewrite Hm; [|apply empty_subseteq].
    rewrite dom_insert_L. by rewrite (comm_L (∪)).
Qed.

Lemma AddTreat_id_is_unused_witness :
  FormatInt (nextID (db (run [CallAddTreat (Some 1%positive); CallDeleteTreat "1"]
                             (fresh pantry)).2))
  ∉ held_ids (run [CallAddTreat (Some 1%positive); CallDeleteTreat "1"]
                  (fresh pantry)).2.
Proof.
  apply (AddTreat_id_is_unused pantry
           [CallAddTreat (Some 1%positive); CallDeleteTreat "1"]).
  - simpl. done.
  - by vm_compute.
Defined.

(** X4: UpdateTreat can take the id the counter is at. AddTreat then
    hands out that id all the same and its record replaces the one
    UpdateTreat stored: the map ends up as if UpdateTreat had not been
    called. *)
Theorem AddTreat_replaces_updated_id (s : state) (l l' : loc) :
  is_Some (treats (db s)) →
  ID (heap s !!! l) = FormatInt (nextID (db s)) →
  let id := FormatInt (nextID (db s)) in
  let s1 := (UpdateTreat (Some l) s).2 in
  let s2 := (AddTreat (Some l') s1).2 in
  GetTreat id s1 = (Return (Some l) None, s1) ∧
  (AddTreat (Some l') s1).1 = Return id None ∧
  GetTreat id s2 = (Return (Some l') None, s2) ∧
  db s2 = db (AddTreat (Some l') s).2.
Proof.
  intros [m Hm] Hid. simpl. unfold UpdateTreat.
  rewrite Hid, decide_False by apply FormatInt_nonempty.
  rewrite Hm. unfold AddTreat, GetTreat. simpl.
  unfold index. simpl. rewrite !lookup_insert_eq.
  by rewrite insert_insert_eq.
Qed.

Lemma AddTreat_replaces_updated_id_witness :
  let s := {| heap := {[ 1%positive := mkTreat "1" "Scone" "" "" "" "";
                         2%positive := alpha ]};
              db := newMemoryDB |} in
  GetTreat "1" (AddTreat (Some 2%positive) (UpdateTreat (Some 1%positive) s).2).2
  = (Return (Some 2%positive) None,
     (AddTreat (Some 2%positive) (UpdateTreat (Some 1%positive) s).2).2).
Proof.
  intros s.
  destruct (AddTreat_replaces_updated_id s 1%positive 2%positive)
    as (_ & _ & G & _); [by eexists|reflexivity|exact G].
Defined.

(** X5: AddTreat followed by DeleteTreat of the id it returned, when that
    id was not held, leaves the map as it was; but the counter has moved
    on and the record keeps the id it was given. *)
Theorem DeleteTreat_undoes_AddTreat (s : state) (l : loc) (m : gmap string loc) :
  treats (db s) = Some m → m !! FormatInt (nextID (db s)) = None →
  let id := FormatInt (nextID (db s)) in
  let s1 := (AddTreat (Some l) s).2 in
  let s2 := (DeleteTreat id s1).2 in
  (DeleteTreat id s1).1 = Return () None ∧
  treats (db s2) = treats (db s) ∧
  nextID (db s2) = wrap64 (nextID (db s) + 1) ∧
  ID (heap s2 !!! l) = id.
Proof.
  intros Hm Hnew. simpl. unfold AddTreat. rewrite Hm. unfold DeleteTreat.
  rewrite decide_False by apply FormatInt_nonempty.
  unfold index. simpl. rewrite lookup_insert_eq. simpl.
  rewrite delete_insert_id by done. by rewrite lookup_total_insert_eq.
Qed.

Lemma DeleteTreat_undoes_AddTreat_witness :
  treats (db (DeleteTreat "1" (AddTreat (Some 1%positive) (fresh pantry)).2).2)
  = Some ∅.
Proof.
  destruct (DeleteTreat_undoes_AddTreat (fresh pantry) 1%positive ∅)
    as (_ & M & _); [reflexivity|reflexivity|exact M].
Defined.

Lemma elem_of_stored_treats (s : state) (l : loc) :
  l ∈ stored_treats s ↔ stored l s.
Proof.
  unfold stored_treats, stored, index.
  destruct (treats (db s)) as [m|]; simpl.
  - rewrite list_elem_of_fmap. split.
    + intros ([k l'] & -> & Hk%elem_of_map_to_list). by exists k.
    + intros [k Hk]. exists (k, l). by rewrite elem_of_map_to_list.
  - split; [by intros ?%elem_of_nil|by intros []].
Qed.

Lemma stored_treats_NoDup (s : state) : key_is_id s → NoDup (stored_treats s).
Proof.
  intros Inv. unfold stored_treats.
  destruct (treats (db s)) as [m|] eqn:Hm; [|constructor].
  apply NoDup_fmap_2_strong; [|apply NoDup_map_to_list].
  intros [k1 l1] [k2 l2] H1%elem_of_map_to_list H2%elem_of_map_to_list.
  simpl. intros <-.
  destruct (Inv k1 l1) as [_ E1]; [by rewrite Hm|].
  destruct (Inv k2 l1) as [_ E2]; [by rewrite Hm|].
  by rewrite <-E1, <-E2.
Qed.

Lemma ListTreats_perm `{!GoRuntime} (seed : N) (s : state) :
  ∃ ts, ListTreats seed s = (Return ts None, s) ∧ ts ≡ₚ stored_treats s.
Proof.
  eexists. split; [reflexivity|].
  rewrite sort_Slice_perm. unfold stored_treats.
  destruct (treats (db s)) as [m|]; [|done]. by rewrite map_range_perm.
Qed.

(** X6: ListTreats and GetTreat agree. A record is in the list exactly
    when GetTreat returns it for some id, and the list has one entry for
    each id the store holds; when every record is stored under its own
    ID, no record is listed twice. *)
Theorem ListTreats_agrees_with_GetTreat `{!GoRuntime} (seed : N) (s : state) :
  ∃ ts, (ListTreats seed s).1 = Return ts None ∧
        (∀ l, l ∈ ts ↔ ∃ id, (GetTreat id s).1 = Return (Some l) None) ∧
        length ts = size (held_ids s) ∧
        (key_is_id s → NoDup ts).
Proof.
  destruct (ListTreats_perm seed s) as (ts & E & P).
  exists ts. split; [by rewrite E|]. split; [|split].
  - intros l. rewrite P, elem_of_stored_treats. unfold stored, GetTreat.
    split; intros [k Hk]; exists k.
    + by rewrite Hk.
    + destruct (index _ _); by inversion Hk.
  - rewrite P. unfold stored_treats, held_ids.
    destruct (treats (db s)) as [m|]; [|done].
    by rewrite length_fmap, length_map_to_list, size_dom.
  - intros Inv. rewrite P. by apply stored_treats_NoDup.
Qed.

Lemma ListTreats_agrees_with_GetTreat_witness :
  let s := (run [CallAddTreat (Some 1%positive); CallAddTreat (Some 2%positive)]
                (fresh pantry)).2 in
  ∃ ts, (ListTreats 3 s).1 = Return ts None ∧ NoDup ts.
Proof.
  intros s.
  destruct (ListTreats_agrees_with_GetTreat 3%N s) as (ts & E & _ & _ & ND).
  exists ts. split; [exact E|]. apply ND.
  apply (key_is_id_AddTreat _ 2%positive).
  - apply (key_is_id_AddTreat _ 1%positive).
    + apply key_is_id_fresh.
    + intros [k Hk]. unfold index in Hk. simpl in Hk.
      by rewrite lookup_empty in Hk.
  - intros [k Hk]. revert Hk. unfold index. simpl.
    destruct (decide (k = "1")) as [->|Hne].
    + by rewrite lookup_insert_eq.
    + rewrite lookup_insert_ne by done. by rewrite lookup_empty.
Defined.

Lemma exec_closed `{!GoRuntime} (c : call) (s : state) :
  treats (db s) = None →
  db (exec c s).2 = db s ∧ assigned (exec c s).1 = None.
Proof.
  intros Hm. destruct s as [h [n m]]. simpl in Hm. subst m.
  destruct c as [|id|[l|]|id|[l|]|seed]; simpl; try done.
  - unfold DeleteTreat. simpl. by case_decide.
  - unfold UpdateTreat. simpl. by case_decide.
Qed.

(** X7: a closed store stays closed. After Close no sequence of calls
    brings the map back or moves the counter, and no AddTreat in it hands
    out an id. *)
Theorem closed_stays_closed `{!GoRuntime} (cs : list call) :
  ∀ s, treats (db s) = None →
       db (run cs s).2 = db s ∧ assigned_ids (run cs s).1 = [].
Proof.
  induction cs as [|c cs IH]; intros s Hm; [done|].
  rewrite run_cons. simpl fst. simpl snd. rewrite assigned_ids_cons.
  destruct (exec_closed c s Hm) as [Hdb ->].
  destruct (IH (exec c s).2) as [Hdb' Hids]; [by rewrite Hdb|].
  split; [by rewrite Hdb'|done].
Qed.

Lemma closed_stays_closed_witness :
  assigned_ids (run [CallAddTreat (Some 1%positive); CallListTreats 0;
                     CallAddTreat (Some 2%positive)]
                    (Close (fresh pantry)).2).1 = [].
Proof.
  apply (closed_stays_closed
           [CallAddTreat (Some 1%positive); CallListTreats 0;
            CallAddTreat (Some 2%positive)] (Close (fresh pantry)).2).
  reflexivity.
Defined.

Lemma same_contents_refl (a : Treat) : same_contents a a.
Proof. by repeat split. Qed.

Lemma same_contents_trans (a b c : Treat) :
  same_contents a b → same_contents b c → same_contents a c.
Proof.
  intros (?&?&?&?&?) (?&?&?&?&?). repeat split; congruence.
Qed.

(** The only write a call makes to the heap is AddTreat's [t.ID = id]. *)
Lemma exec_heap `{!GoRuntime} (c : call) (s : state) (l : loc) :
  heap (exec c s).2 !!! l = heap s !!! l ∨
  (c = CallAddTreat (Some l) ∧
   heap (exec c s).2 !!! l = set_ID (FormatInt (nextID (db s))) (heap s !!! l)).
Proof.
  destruct c as [|id|[l'|]|id|[l'|]|seed]; simpl; try by left.
  - unfold GetTreat. destruct (index _ _); by left.
  - destruct (decide (l' = l)) as [->|Hne].
    + right. split; [done|]. unfold AddTreat.
      destruct (treats (db s)); simpl; by rewrite lookup_total_insert_eq.
    + left. unfold AddTreat.
      destruct (treats (db s)); simpl; by rewrite lookup_total_insert_ne.
  - unfold DeleteTreat. case_decide; [by left|].
    destruct (index _ _); by left.
  - unfold UpdateTreat. case_decide; [by left|].
    destruct (treats (db s)); by left.
Qed.

(** X8: the store writes nothing but ids. Whatever calls are made, every
    record keeps its title, author, date, image URL and description, and
    a record that is never handed to AddTreat is not written at all. *)
Theorem store_writes_only_ids `{!GoRuntime} (cs : list call) (l : loc) :
  ∀ s, same_contents (heap (run cs s).2 !!! l) (heap s !!! l) ∧
       (CallAddTreat (Some l) ∉ cs → heap (run cs s).2 !!! l = heap s !!! l).
Proof.
  induction cs as [|c cs IH]; intros s.
  - split; [apply same_contents_refl|done].
  - rewrite run_cons. simpl snd.
    destruct (IH (exec c s).2) as [Same Untouched].
    destruct (exec_heap c s l) as [E|[-> E]].
    + rewrite <-E. split; [done|].
      intros Hnot. apply Untouched. by apply not_elem_of_cons in Hnot as [_ ?].
    + split.
      * eapply same_contents_trans; [exact Same|]. rewrite E. by repeat split.
      * intros Hnot. by apply not_elem_of_cons in Hnot as [? _].
Qed.

Lemma store_writes_only_ids_witness :
  heap (run [CallAddTreat (Some 1%positive); CallDeleteTreat "1"]
            (fresh pantry)).2 !!! 2%positive
  = pantry !!! 2%positive.
Proof.
  apply (store_writes_only_ids
           [CallAddTreat (Some 1%positive); CallDeleteTreat "1"] 2%positive
           (fresh pantry)).
  intros Hin. repeat (apply elem_of_cons in Hin as [Hin|Hin]; [discriminate|]).
  by apply elem_of_nil in Hin.
Defined.

(** X9: a panic never changes the map or the counter; and a store that
    has not been closed panics only when it is handed a nil record, in
    which case nothing at all has changed. *)
Theorem panics_leave_the_store `{!GoRuntime} (c : call) (s : state) (p : panic) :
  (exec c s).1 = Panics p →
  db (exec c s).2 = db s ∧
  (is_Some (treats (db s)) →
     (c = CallAddTreat None ∨ c = CallUpdateTreat None) ∧
     p = NilDereference ∧ (exec c s).2 = s).
Proof.
  destruct c as [|id|[l|]|id|[l|]|seed]; simpl; try done.
  - unfold GetTreat. by destruct (index _ _).
  - unfold AddTreat. destruct (treats (db s)) eqn:Hm; simpl; [done|].
    intros _. split; [done|]. by intros [].
  - intros [= <-]. split; [done|]. intros _. split; [by left|done].
  - unfold DeleteTreat. case_decide; [done|]. by destruct (index _ _).
  - unfold UpdateTreat. case_decide; [done|].
    destruct (treats (db s)) eqn:Hm; simpl; [done|].
    intros _. split; [done|]. by intros [].
  - intros [= <-]. split; [done|]. intros _. split; [by right|done].
Qed.

Lemma panics_leave_the_store_witness :
  db (exec (CallAddTreat (Some 1%positive)) (Close (fresh pantry)).2).2
  = db (Close (fresh pantry)).2.
Proof.
  apply (panics_leave_the_store (CallAddTreat (Some 1%positive))
           (Close (fresh pantry)).2 NilMapAssignment).
  reflexivity.
Defined.

End memory_compose.

(** * Further properties of the Firestore adapter *)

Section firestore_list.
Import FirestoreDB.
Context `{!Client, !QueryClient}.

(** The loop after a run of documents: each has added its record and its
    log line, whether or not it decoded. *)
Lemma ListTreats_loop_docs (docs : list DocumentSnapshot) :
  ∀ iter treats log,
    ListTreats_loop ((NextDoc <$> docs) ++ iter) treats log
    = ListTreats_loop iter (treats ++ (decoded <$> docs))
                           (log ++ (log_line <$> docs)).
Proof.
  induction docs as [|doc docs IH]; intros iter treats log; simpl.
  - by rewrite !app_nil_r.
  - unfold decoded at 1, log_line at 1, decoded.
    destruct (DataTo doc zeroTreat) as [t' e]. simpl.
    rewrite IH. by rewrite <-!app_assoc.
Qed.

(** X10: when the query's iterator runs to its end, the Firestore
    ListTreats returns one record for every document, in the order the
    iterator yields them, with no error, also for documents that do not
    decode; it does no sorting of its own. *)
Theorem ListTreats_returns_every_document (db : firestoreDB) (r : remote)
    (docs : list DocumentSnapshot) :
  Query_Documents (collection db) "Title" r = NextDoc <$> docs →
  FirestoreDB.ListTreats db r
  = (Return (decoded <$> docs) None, log_line <$> docs).
Proof.
  intros Q. unfold FirestoreDB.ListTreats. rewrite Q.
  rewrite <-(app_nil_r (NextDoc <$> docs)).
  by rewrite ListTreats_loop_docs.
Qed.

(** X11: when the iterator fails, the Firestore ListTreats returns that
    error, wrapped, and no record at all: the documents read before the
    failure have been logged and are dropped, and what the iterator
    would have yielded afterwards is never read. *)
Theorem ListTreats_all_or_nothing (db : firestoreDB) (r : remote)
    (docs : list DocumentSnapshot) (err : error) (rest : list next_result) :
  Query_Documents (collection db) "Title" r
    = ((NextDoc <$> docs) ++ NextError err :: rest)%list →
  FirestoreDB.ListTreats db r
  = (Return [] (Some (Errorf_v "firestoredb: could not list books: %v" err)),
     log_line <$> docs) ∧
  kind_of (Errorf_v "firestoredb: could not list books: %v" err)
  = Some BackendError.
Proof.
  intros Q. unfold FirestoreDB.ListTreats. rewrite Q.
  by rewrite ListTreats_loop_docs.
Qed.

End firestore_list.

Lemma ListTreats_returns_every_document_witness :
  @FirestoreDB.ListTreats FirestoreDB.stand_in FirestoreDB.stand_in_queries
    FirestoreDB.books {[ ("books", "7") := FirestoreDB.mistyped ]}
  = (Return [mkTreat "" "Eclair" "" "" "" ""] None, [("Eclair", "")]).
Proof.
  apply (@ListTreats_returns_every_document
           FirestoreDB.stand_in FirestoreDB.stand_in_queries
           FirestoreDB.books {[ ("books", "7") := FirestoreDB.mistyped ]}
           [FirestoreDB.mistyped]).
  by vm_compute.
Defined.

Lemma ListTreats_all_or_nothing_witness :
  (@FirestoreDB.ListTreats FirestoreDB.stand_in FirestoreDB.outage
     FirestoreDB.books ∅).1
  = Return [] (Some (Errorf_v "firestoredb: could not list books: %v"
                       (errors_New "rpc error: code = Unavailable"))).
Proof.
  destruct (@ListTreats_all_or_nothing
           FirestoreDB.stand_in FirestoreDB.outage FirestoreDB.books ∅
           [FirestoreDB.encode zeroTreat]
           (errors_New "rpc error: code = Unavailable")
           [@FirestoreDB.NextDoc FirestoreDB.stand_in (FirestoreDB.encode zeroTreat)])
    as [L _]; [reflexivity|].
  by rewrite L.
Defined.

(** * Properties of the handlers *)

Section shelf.
Import Shelf.
Context `{!GoRuntime} (t : Treatshelf) (x : externals).

Lemma upload_cases (r : Request) :
  (FormFile_image r = ErrMissingFile ∧ uploadFileFromForm t x r = Return "" None) ∨
  (∃ err, uploadFileFromForm t x r = Return "" (Some err)) ∨
  (∃ Filename, FormFile_image r = FormFileHeader Filename ∧
     uploadFileFromForm t x r
     = Return (public_url t ((uuid_NewV4 x).1 +:+ path_Ext x Filename)) None) ∨
  (∃ err, (uuid_NewV4 x).2 = Some err ∧
     uploadFileFromForm t x r = Panics (Raised err)).
Proof.
  unfold uploadFileFromForm.
  destruct (FormFile_image r) as [|e|Filename]; [by left|right; left; eauto|].
  destruct (StorageBucket t); simpl; [|right; left; eauto].
  destruct (Bucket_Attrs x) as [e|].
  { case_decide; right; left; eauto. }
  destruct (uuid_NewV4 x) as [u [e|]]; simpl.
  { right. right. right. eauto. }
  destruct (io_Copy x); [right; left; eauto|].
  destruct (Writer_Close x); [right; left; eauto|].
  right. right. left. eauto.
Qed.

Lemma treatFromForm_cases (r : Request) (s : state) :
  (∃ err, uploadFileFromForm t x r = Return "" (Some err) ∧
     treatFromForm t x r s
     = (Return None (Some (Errorf_v "could not upload file: %v" err)), s)) ∨
  ((∃ url, uploadFileFromForm t x r = Return url None) ∧
   treatFromForm t x r s
   = (Return (Some (new_loc s)) None,
      {| heap := <[new_loc s := form_treat r (image_url t x r)]> (heap s);
         db := db s |})) ∨
  (∃ err, (uuid_NewV4 x).2 = Some err ∧
     uploadFileFromForm t x r = Panics (Raised err) ∧
     treatFromForm t x r s = (Panics (Raised err), s)).
Proof.
  unfold treatFromForm, image_url, public_url.
  destruct (upload_cases r)
    as [[F U]|[[e U]|[(Filename & F & U)|(e & N & U)]]]; rewrite U.
  - right. left. rewrite F. split; [eauto|done].
  - left. eauto.
  - right. left. rewrite F. split; [eauto|done].
  - right. right. eauto.
Qed.

Lemma new_loc_not_stored (s : state) : ¬ stored (new_loc s) s.
Proof.
  intros St%elem_of_stored_treats.
  apply (is_fresh (dom (heap s) ∪ list_to_set (stored_treats s) : gset loc)).
  apply elem_of_union_r. by apply elem_of_list_to_set.
Qed.

Lemma new_loc_not_written (s : state) : heap s !! new_loc s = None.
Proof.
  apply not_elem_of_dom. intros D.
  apply (is_fresh (dom (heap s) ∪ list_to_set (stored_treats s) : gset loc)).
  by apply elem_of_union_l.
Qed.

(** X12: uploadFileFromForm returns an empty URL with no error exactly
    when the request carries no file; and on success treatFromForm hands
    back a new record, one the store does not hold, with an empty ID, the
    form's fields and as image URL the uploaded object's public URL if a
    file was sent and the form's imageURL field if not; nothing else
    changes. *)
Theorem treatFromForm_builds_a_new_record (r : Request) (s : state) :
  (uploadFileFromForm t x r = Return "" None ↔ FormFile_image r = ErrMissingFile) ∧
  (∀ p s', treatFromForm t x r s = (Return p None, s') →
     p = Some (new_loc s) ∧ ¬ stored (new_loc s) s ∧
     heap s !! new_loc s = None ∧
     heap s' = <[new_loc s := form_treat r (image_url t x r)]> (heap s) ∧
     db s' = db s ∧ ID (heap s' !!! new_loc s) = "").
Proof.
  split.
  - destruct (upload_cases r)
      as [[F U]|[[e U]|[(Filename & F & U)|(e & N & U)]]]; rewrite U.
    + done.
    + split; [done|]. intros F. revert U. unfold uploadFileFromForm.
      by rewrite F.
    + by rewrite F.
    + split; [done|]. intros F. revert U. unfold uploadFileFromForm.
      by rewrite F.
  - intros p s' E.
    destruct (treatFromForm_cases r s) as [(e & _ & E')|[[_ E']|(e & _ & _ & E')]];
      rewrite E' in E; [done| |done]. injection E as <- <-.
    split; [done|]. split; [apply new_loc_not_stored|].
    split; [apply new_loc_not_written|]. simpl.
    by rewrite lookup_total_insert_eq.
Qed.

(** A record written at an address the store does not hold is none of
    the store's business. *)
Lemma key_is_id_write (s : state) (l : loc) (r : Treat) :
  key_is_id s → ¬ stored l s →
  key_is_id {| heap := <[l := r]> (heap s); db := db s |}.
Proof.
  intros Inv New k l' Hk. simpl in *.
  assert (l' ≠ l) by (intros ->; apply New; by exists k).
  rewrite lookup_total_insert_ne by done. by apply Inv.
Qed.

(** X13: on a store that has not been closed, when the upload goes
    through, createHandler redirects to the page of the id the counter
    is at, and the store then holds under that id a new record with the
    form's fields; a store keyed by its records' ids stays so. *)
Theorem createHandler_stores_the_form (r : Request) (s : state) :
  is_Some (treats (db s)) →
  (∃ url, uploadFileFromForm t x r = Return url None) →
  let id := FormatInt (nextID (db s)) in
  let s' := (createHandler t x r s).2 in
  (createHandler t x r s).1 = Responded None (Redirected ("/treats/" +:+ id) 302) ∧
  GetTreat id s' = (Return (Some (new_loc s)) None, s') ∧
  heap s' !!! new_loc s = set_ID id (form_treat r (image_url t x r)) ∧
  nextID (db s') = wrap64 (nextID (db s) + 1) ∧
  (key_is_id s → key_is_id s').
Proof.
  intros [m Hm] [url Up]. simpl. unfold createHandler.
  destruct (treatFromForm_cases r s) as [(e & U & _)|[[_ ->]|(e & _ & U & _)]];
    [by rewrite U in Up| |by rewrite U in Up].
  split; [|split; [|split; [|split]]].
  - unfold AddTreat. simpl. by rewrite Hm.
  - unfold AddTreat. simpl. rewrite Hm. unfold GetTreat, index. simpl.
    by rewrite lookup_insert_eq.
  - unfold AddTreat. simpl. rewrite Hm. simpl.
    by rewrite !lookup_total_insert_eq.
  - unfold AddTreat. simpl. by rewrite Hm.
  - intros Inv.
    pose proof (key_is_id_AddTreat
      {| heap := <[new_loc s := form_treat r (image_url t x r)]> (heap s);
         db := db s |} (new_loc s)) as Step.
    unfold AddTreat in *. simpl in *. rewrite Hm in *. simpl in *.
    apply Step.
    + apply key_is_id_write; [done|apply new_loc_not_stored].
    + intros [k Hk]. apply (new_loc_not_stored s). by exists k.
Qed.

(** X14: updateHandler does not ask whether the id in the URL is held.
    On a store that has not been closed, for any non-empty id, when the
    upload goes through it redirects to the page of that id and the
    store then holds under it a new record with the form's fields and
    that ID, while the other ids and the counter stay as they were. *)
Theorem updateHandler_upserts (r : Request) (s : state) :
  is_Some (treats (db s)) → Vars_id r ≠ "" →
  (∃ url, uploadFileFromForm t x r = Return url None) →
  let id := Vars_id r in
  let s' := (updateHandler t x r s).2 in
  (updateHandler t x r s).1 = Responded None (Redirected ("/treats/" +:+ id) 302) ∧
  GetTreat id s' = (Return (Some (new_loc s)) None, s') ∧
  heap s' !!! new_loc s = set_ID id (form_treat r (image_url t x r)) ∧
  nextID (db s') = nextID (db s) ∧
  (∀ k, k ≠ id → index (treats (db s')) k = index (treats (db s)) k).
Proof.
  intros [m Hm] Hid [url Up]. simpl. unfold updateHandler.
  rewrite decide_False by done.
  destruct (treatFromForm_cases r s) as [(e & U & _)|[[_ ->]|(e & _ & U & _)]];
    [by rewrite U in Up| |by rewrite U in Up].
  unfold UpdateTreat. simpl. rewrite !lookup_total_insert_eq. simpl.
  rewrite decide_False by done. rewrite Hm. simpl.
  rewrite !lookup_total_insert_eq. simpl.
  split; [done|]. split.
  { unfold GetTreat, index. simpl. by rewrite lookup_insert_eq. }
  split; [done|]. split; [done|].
  intros k Hk. unfold index. simpl. by rewrite lookup_insert_ne.
Qed.

Lemma treatFromRequest_cases (r : Request) (s : state) :
  (∃ e, treatFromRequest r s = (Return None (Some e), s)) ∨
  (∃ l, treatFromRequest r s = (Return (Some l) None, s)).
Proof.
  unfold treatFromRequest, GetTreat. case_decide; [left; eauto|].
  destruct (index _ _); [right|left]; eauto.
Qed.

Lemma Execute_cases (template : string) (data : page_data) :
  (∃ e, Execute x template data
        = Responded (Some (appErrorf e "could not write template: %v" [e]))
                    (Executed template data)) ∨
  Execute x template data = Responded None (Executed template data).
Proof.
  unfold Execute. destruct (template_Execute x template data); eauto.
Qed.

(** What a handler can do to the state and answer, handler by handler. *)
Lemma serve_cases (h : handler) (r : Request) (s : state) :
  let out := serve t x h r s in
  (∃ p, out.1 = Panicked p ∧ db out.2 = db s ∧
        (treats (db s) = None ∨
         ∃ err, p = Raised err ∧ (uuid_NewV4 x).2 = Some err ∧ out.2 = s)) ∨
  (∃ e a, out.1 = Responded (Some e) a ∧ code e = 500 ∧ db out.2 = db s) ∨
  (∃ a, out.1 = Responded None a).
Proof.
  destruct h; simpl.
  - unfold listHandler, ListTreats.
    destruct (Execute_cases "list.html"
      (DataTreats (sort_Slice (title_less (heap s))
         match treats (db s) with
         | Some m => (map_range (range_seed x) m).*2
         | None => []
         end))) as [[e ->]| ->]; right; [left|right]; eauto.
  - unfold detailHandler.
    destruct (treatFromRequest_cases r s) as [[e ->]|[l ->]].
    + right. left. eauto.
    + destruct (Execute_cases "detail.html" (DataTreat (Some l)))
        as [[e ->]| ->]; right; [left|right]; eauto.
  - unfold addFormHandler.
    destruct (Execute_cases "edit.html" DataNil) as [[e ->]| ->];
      right; [left|right]; eauto.
  - unfold editFormHandler.
    destruct (treatFromRequest_cases r s) as [[e ->]|[l ->]].
    + right. left. eauto.
    + destruct (Execute_cases "edit.html" (DataTreat (Some l)))
        as [[e ->]| ->]; right; [left|right]; eauto.
  - unfold createHandler.
    destruct (treatFromForm_cases r s)
      as [(e & _ & ->)|[[_ ->]|(e & N & _ & ->)]].
    + right. left. eauto.
    + unfold AddTreat. simpl.
      destruct (treats (db s)) eqn:Hm; [right; right; eauto|].
      left. eauto.
    + left. eauto 10.
  - unfold updateHandler. case_decide as Hid.
    { right. left. eauto. }
    destruct (treatFromForm_cases r s)
      as [(e & _ & ->)|[[_ ->]|(e & N & _ & ->)]].
    + right. left. eauto.
    + unfold UpdateTreat. simpl. rewrite !lookup_total_insert_eq. simpl.
      rewrite decide_False by done.
      destruct (treats (db s)) eqn:Hm; [right; right; eauto|].
      left. eauto.
    + left. eauto 10.
  - unfold deleteHandler, DeleteTreat. case_decide.
    { right. left. eauto. }
    destruct (index _ _); right; [right|left]; eauto.
Qed.

(** X15: a handler never answers an error with anything but status 500
    (a treat that is not found gets a 500 too), and a request that ends
    in an error or a panic has left the store's map and counter as they
    were. A handler panics only on a closed store, or when a file is
    being uploaded and uuid.NewV4 fails, which uuid.Must turns into a
    panic before anything has changed; so on a store that has not been
    closed, with a working random source, no handler panics. *)
Theorem handler_failures (h : handler) (r : Request) (s : state) :
  (∀ e a, (serve t x h r s).1 = Responded (Some e) a →
          code e = 500 ∧ db (serve t x h r s).2 = db s) ∧
  (∀ p, (serve t x h r s).1 = Panicked p →
        db (serve t x h r s).2 = db s ∧
        (treats (db s) = None ∨
         ∃ err, p = Raised err ∧ (uuid_NewV4 x).2 = Some err ∧
                (serve t x h r s).2 = s)) ∧
  (is_Some (treats (db s)) → (uuid_NewV4 x).2 = None →
   ∀ p, (serve t x h r s).1 ≠ Panicked p) ∧
  (Vars_id r ≠ "" → index (treats (db s)) (Vars_id r) = None →
   detailHandler x r s
   = (Responded
        (Some (appErrorf
           (Errorf_v "could not find treat: %v"
              (Errorf_q "memorydb: treat not found with ID %q" (Vars_id r)))
           "%v"
           [Errorf_v "could not find treat: %v"
              (Errorf_q "memorydb: treat not found with ID %q" (Vars_id r))]))
        Nothing, s)).
Proof.
  split; [|split; [|split]].
  - intros e a E.
    destruct (serve_cases h r s) as [(p & E' & _)|[(e' & a' & E' & ?)|(a' & E')]];
      rewrite E' in E; [done| |done].
    by injection E as <- <-.
  - intros p E.
    destruct (serve_cases h r s)
      as [(p' & E' & Hdb & Why)|[(e' & a' & E' & ?)|(a' & E')]];
      rewrite E' in E; [|done|done].
    injection E as <-. by split.
  - intros [m Hm] Uuid p E.
    destruct (serve_cases h r s)
      as [(p' & E' & _ & [Closed|(e & _ & N & _)])|[(e' & a' & E' & ?)|(a' & E')]];
      [congruence|congruence|by rewrite E' in E|by rewrite E' in E].
  - intros Hid Hno. unfold detailHandler, treatFromRequest, GetTreat.
    rewrite decide_False by done. by rewrite Hno.
Qed.

(** X16: the handlers keep a store keyed by its records' ids that way:
    every record they hand to the store is one they have just built. *)
Theorem handlers_keep_key_is_id (h : handler) (r : Request) (s : state) :
  key_is_id s → key_is_id (serve t x h r s).2.
Proof.
  intros Inv. destruct h; simpl.
  - done.
  - unfold detailHandler.
    by destruct (treatFromRequest_cases r s) as [[e ->]|[l ->]].
  - done.
  - unfold editFormHandler.
    by destruct (treatFromRequest_cases r s) as [[e ->]|[l ->]].
  - unfold createHandler.
    destruct (treatFromForm_cases r s)
      as [(e & _ & ->)|[[_ ->]|(e & _ & _ & ->)]]; [done| |done].
    pose proof (key_is_id_AddTreat
      {| heap := <[new_loc s := form_treat r (image_url t x r)]> (heap s);
         db := db s |} (new_loc s)) as Step.
    destruct (AddTreat _ _) as [[id [e|]|p] s2]; simpl in *; apply Step;
      try (apply key_is_id_write; [done|apply new_loc_not_stored]);
      intros [k Hk]; apply (new_loc_not_stored s); by exists k.
  - unfold updateHandler. case_decide as Hid; [done|].
    destruct (treatFromForm_cases r s)
      as [(e & _ & ->)|[[_ ->]|(e & _ & _ & ->)]]; [done| |done].
    lazy beta iota zeta.
    assert (Inv1 : key_is_id
      {| heap := <[new_loc s := form_treat r (image_url t x r)]> (heap s);
         db := db s |})
      by (apply key_is_id_write; [done|apply new_loc_not_stored]).
    assert (New1 : ¬ stored (new_loc s)
      {| heap := <[new_loc s := form_treat r (image_url t x r)]> (heap s);
         db := db s |})
      by (intros [k Hk]; apply (new_loc_not_stored s); by exists k).
    pose proof (key_is_id_write _ (new_loc s)
      (set_ID (Vars_id r)
         (<[new_loc s := form_treat r (image_url t x r)]> (heap s)
            !!! new_loc s)) Inv1 New1) as Inv2.
    match goal with
    | |- context [UpdateTreat ?a ?b] =>
        pose proof (key_is_id_UpdateTreat b a Inv2) as Step;
        by destruct (UpdateTreat a b) as [[u [e|]|p] s3]
    end.
  - unfold deleteHandler.
    pose proof (key_is_id_DeleteTreat s (Vars_id r) Inv) as Step.
    by destruct (DeleteTreat _ _) as [[u [e|]|p] s'].
Qed.

End shelf.

Section shelf_witnesses.
Import Shelf.

Lemma treatFromForm_builds_a_new_record_witness :
  heap (treatFromForm shelf all_well post_scone_with_file (fresh pantry)).2
  = <[new_loc (fresh pantry) :=
        form_treat post_scone_with_file
          "https://storage.googleapis.com/tings_bucket/0f8fad5b.png"]> pantry.
Proof.
  destruct (proj2 (treatFromForm_builds_a_new_record shelf all_well
                     post_scone_with_file (fresh pantry))
              (Some (new_loc (fresh pantry)))
              (treatFromForm shelf all_well post_scone_with_file (fresh pantry)).2)
    as (_ & _ & _ & Hh & _); [reflexivity|exact Hh].
Defined.

Lemma createHandler_stores_the_form_witness :
  (createHandler shelf all_well post_scone (fresh pantry)).1
  = Responded None (Redirected "/treats/1" 302).
Proof.
  destruct (createHandler_stores_the_form shelf all_well post_scone (fresh pantry))
    as (R & _); [by eexists|by eexists|exact R].
Defined.

Lemma updateHandler_upserts_witness :
  (updateHandler shelf all_well post_scone (fresh pantry)).1
  = Responded None (Redirected "/treats/41" 302) ∧
  index (treats (db (fresh pantry))) "41" = None.
Proof.
  destruct (updateHandler_upserts shelf all_well post_scone (fresh pantry))
    as (R & _); [by eexists|discriminate|by eexists|].
  split; [exact R|reflexivity].
Defined.

Lemma handler_failures_witness :
  (∃ e, (detailHandler all_well post_scone (fresh pantry)).1
        = Responded (Some e) Nothing ∧ code e = 500) ∧
  (serve shelf no_entropy create post_scone_with_file (fresh pantry)).1
  = Panicked (Raised (errors_New "unexpected EOF")) ∧
  (serve shelf no_entropy create post_scone_with_file (fresh pantry)).2
  = fresh pantry.
Proof.
  split; [|split; [reflexivity|]].
  - destruct (handler_failures shelf all_well detail post_scone (fresh pantry))
      as (_ & _ & _ & Missing).
    eexists. rewrite Missing; [split; reflexivity|discriminate|reflexivity].
  - destruct (handler_failures shelf no_entropy create post_scone_with_file
                (fresh pantry)) as (_ & Panic & _).
    destruct (Panic (Raised (errors_New "unexpected EOF")))
      as [_ [Closed|(e & _ & _ & Same)]]; [reflexivity|discriminate|exact Same].
Defined.

Lemma handlers_keep_key_is_id_witness :
  key_is_id (serve shelf all_well create post_scone (fresh pantry)).2.
Proof.
  apply (handlers_keep_key_is_id shelf all_well create post_scone (fresh pantry)).
  apply key_is_id_fresh.
Defined.

End shelf_witnesses.

(** * Two more properties of the stores *)

Section more.

Lemma set_ID_set_ID (i j : string) (t : Treat) : set_ID i (set_ID j t) = set_ID i t.
Proof. done. Qed.

(** X17: AddTreat ignores the ID of the record it is handed, on both
    backends: whatever the ID field held, the id assigned, the record
    stored and the state afterwards are the same. *)
Theorem AddTreat_ignores_the_given_ID :
  (∀ s l i,
     AddTreat (Some l)
       {| heap := <[l := set_ID i (heap s !!! l)]> (heap s); db := db s |}
     = AddTreat (Some l) s) ∧
  (∀ (C : FirestoreDB.Client) (Q : FirestoreDB.QueryClient) fdb draw t i r,
     FirestoreDB.AddTreat fdb draw (set_ID i t) r
     = FirestoreDB.AddTreat fdb draw t r).
Proof.
  split.
  - intros s l i. unfold AddTreat. simpl.
    rewrite lookup_total_insert_eq, set_ID_set_ID, insert_insert_eq.
    by destruct (treats (db s)).
  - intros C Q fdb draw t i r. unfold FirestoreDB.AddTreat.
    by rewrite set_ID_set_ID.
Qed.

(** X18: when no two stored records have the same title, what ListTreats
    returns is fully determined: it does not depend on the order in
    which the runtime ranges over the map nor on how sort.Slice breaks
    ties. *)
Theorem ListTreats_determined_by_titles (R1 R2 : GoRuntime) (seed1 seed2 : N)
    (s : state) :
  (∀ a b, stored a s → stored b s →
          Title (heap s !!! a) = Title (heap s !!! b) → a = b) →
  (@ListTreats R1 seed1 s).1 = (@ListTreats R2 seed2 s).1.
Proof.
  intros Distinct.
  assert (Sorted : ∀ (R : GoRuntime) seed,
    ∃ ts, @ListTreats R seed s = (Return ts None, s) ∧
          ts ≡ₚ stored_treats s ∧ StronglySorted (title_le (heap s)) ts).
  { intros R seed. eexists. split; [reflexivity|]. split.
    - rewrite sort_Slice_perm. unfold stored_treats.
      destruct (treats (db s)) as [m|]; [|done]. by rewrite map_range_perm.
    - eapply StronglySorted_weaken; [|apply sort_Slice_sorted, title_less_swo].
      intros a b L. by apply ltb_false_leb. }
  destruct (Sorted R1 seed1) as (ts1 & -> & P1 & S1).
  destruct (Sorted R2 seed2) as (ts2 & -> & P2 & S2).
  simpl. f_equal.
  apply (StronglySorted_unique_strong (title_le (heap s))); [|done|done|].
  - intros a b Ha Hb Lab Lba. apply Distinct.
    + apply elem_of_stored_treats. rewrite <-P1. exact Ha.
    + apply elem_of_stored_treats. rewrite <-P2. exact Hb.
    + by apply String.leb_antisym.
  - by rewrite P1, P2.
Qed.

Lemma ListTreats_determined_by_titles_witness :
  (@ListTreats reference_runtime 5
     (run [CallAddTreat (Some 1%positive); CallAddTreat (Some 2%positive)]
          (fresh pantry)).2).1
  = (@ListTreats reference_runtime 0
       (run [CallAddTreat (Some 1%positive); CallAddTreat (Some 2%positive)]
            (fresh pantry)).2).1.
Proof.
  apply (ListTreats_determined_by_titles reference_runtime reference_runtime 5 0).
  intros a b [ka Ha] [kb Hb]. revert Ha Hb. unfold index. simpl.
  rewrite !lookup_insert_Some, !lookup_empty.
  intros [[_ <-]|[_ [[_ <-]|[_ ?]]]] [[_ <-]|[_ [[_ <-]|[_ ?]]]];
    try done; by vm_compute.
Defined.

End more.
